(** * Edge-chat room view: reconciling message cache, lifecycle timer, composer

    A shallow embedding of the room page (the React component [Page]) and of
    the composer ([ChatInput]).  React state, the query cache entry
    [["messages", roomId]], the live interval and the calls made on the router
    are fields of an explicit page state; every callback of the component is a
    function from page states to page states. *)

From Stdlib Require Import List String Ascii ZArith Lia Bool NArith.
From Stdlib Require Import DecimalString DecimalZ DecimalPos Permutation.
Import ListNotations.

Local Open Scope string_scope.
Local Open Scope list_scope.
Local Open Scope Z_scope.

(** ** Data model *)

(** [Message] of [@/lib/realtime], with the fields the page reads and writes. *)
Record Message : Type := mkMessage {
  id : string;
  sender : string;
  text : string;
  timestamp : Z;
  roomId : string;
  imageBase64 : option string;
  imageType : option string
}.

(** The variables of the [sendMessage] mutation. *)
Record Draft : Type := mkDraft {
  d_text : string;
  d_imageBase64 : option string;
  d_imageType : option string;
  d_id : string
}.

(** The cached value [{ messages: Message[] } | undefined]: [None] is
    [undefined] (nothing fetched or written yet). *)
Definition QueryData : Type := option (list Message).

(** The list a reader of the cache renders ([messages?.messages]). *)
Definition messagesOf (c : QueryData) : list Message :=
  match c with
  | Some l => l
  | None => []
  end.

Definition ids (c : QueryData) : list string := map id (messagesOf c).

(** [old.messages.some((m) => m.id === x)] *)
Definition hasId (x : string) (l : list Message) : bool :=
  existsb (fun m => String.eqb (id m) x) l.

(** How many entries of a list carry the id [x]. *)
Definition countId (x : string) (l : list Message) : nat :=
  List.length (filter (fun m => String.eqb (id m) x) l).

(** ** The query client, restricted to the key [["messages", roomId]]

    [fetching] holds the tokens of the fetches whose result will still be
    written to the cache; [nextFetch] numbers the fetches in the order they
    are issued.  A fetch that is started never cancels another one here, which
    allows more interleavings than the library does. *)
Module QueryClient.

Record t : Type := mk {
  data : QueryData;
  fetching : list nat;
  nextFetch : nat
}.

Definition empty : t := mk None [] 0%nat.

Definition getQueryData (q : t) : QueryData := data q.

(** [setQueryData(key, updater)] *)
Definition setQueryData (upd : QueryData -> QueryData) (q : t) : t :=
  mk (upd (data q)) (fetching q) (nextFetch q).

(** [cancelQueries({ queryKey })]: the results of the fetches in flight are
    dropped. *)
Definition cancelQueries (q : t) : t :=
  mk (data q) [] (nextFetch q).

(** A fetch is issued (on mount, or by [invalidateQueries]). *)
Definition startFetch (q : t) : t :=
  mk (data q) (nextFetch q :: fetching q) (S (nextFetch q)).

Definition invalidateQueries (q : t) : t := startFetch q.

Definition isFetching (tok : nat) (q : t) : bool :=
  existsb (Nat.eqb tok) (fetching q).

Definition forget (tok : nat) (q : t) : list nat :=
  filter (fun k => negb (Nat.eqb tok k)) (fetching q).

(** The [queryFn] of fetch [tok] resolves with [{ messages: l }]: written to
    the cache unless the fetch was cancelled. *)
Definition resolveFetch (tok : nat) (l : list Message) (q : t) : t :=
  if isFetching tok q then mk (Some l) (forget tok q) (nextFetch q) else q.

(** The [queryFn] of fetch [tok] rejects: the cached value stays. *)
Definition rejectFetch (tok : nat) (q : t) : t :=
  mk (data q) (forget tok q) (nextFetch q).

End QueryClient.

(** ** The page state *)

Record Page : Type := mkPage {
  client : QueryClient.t;
  timeRemaining : option Z;      (* useState<number | null>(null) *)
  interval : bool;               (* the interval of the last effect run is live *)
  pushed : list string;          (* router.push calls, oldest first *)
  mounted : bool
}.

Definition initialPage : Page :=
  mkPage QueryClient.empty None false [] true.

Definition cache (p : Page) : QueryData := QueryClient.data (client p).

Definition withClient (f : QueryClient.t -> QueryClient.t) (p : Page) : Page :=
  mkPage (f (client p)) (timeRemaining p) (interval p) (pushed p) (mounted p).

Definition destroyedUrl : string := "/?destroyed=true".

(** [router.push(url)] *)
Definition routerPush (url : string) (p : Page) : Page :=
  mkPage (client p) (timeRemaining p) (interval p) (pushed p ++ [url]) (mounted p).

Definition clearInterval (p : Page) : Page :=
  mkPage (client p) (timeRemaining p) false (pushed p) (mounted p).

Definition setInterval (p : Page) : Page :=
  mkPage (client p) (timeRemaining p) true (pushed p) (mounted p).

Definition writeTimeRemaining (v : option Z) (p : Page) : Page :=
  mkPage (client p) v (interval p) (pushed p) (mounted p).

(** ** The lifecycle timer *)

(** The body of the countdown effect, run after a render in which
    [timeRemaining] changed. *)
Definition countdownEffect (p : Page) : Page :=
  match timeRemaining p with
  | None => p
  | Some t =>
      if t <? 0 then p
      else if t =? 0 then routerPush destroyedUrl p
      else setInterval p
  end.

Definition sameValue (a b : option Z) : bool :=
  match a, b with
  | None, None => true
  | Some x, Some y => x =? y
  | _, _ => false
  end.

(** [setTimeRemaining(v)]: nothing happens on an unmounted component or when
    the value is the one already held; otherwise the component renders again,
    the cleanup of the previous effect run clears its interval, and the effect
    runs with the new value. *)
Definition setTimeRemaining (v : option Z) (p : Page) : Page :=
  if negb (mounted p) then p
  else if sameValue v (timeRemaining p) then p
  else countdownEffect (clearInterval (writeTimeRemaining v p)).

(** [if (ttlData?.ttl !== undefined) setTimeRemaining(ttlData.ttl)] *)
Definition ttlEffect (ttl : option Z) (p : Page) : Page :=
  match ttl with
  | Some n => setTimeRemaining (Some n) p
  | None => p
  end.

(** [Number.MAX_SAFE_INTEGER], [2^53 - 1]. *)
Definition maxSafeInteger : Z := 9007199254740991.

(** The countdown holds a number, an IEEE double; the values met here are
    whole, and a whole double is written as the integer it equals.  The
    result of an operation whose exact value is the integer [z] is the double
    nearest to [z], ties going to the even significand: [z] itself up to
    [2^53], a multiple of the spacing [u] of the doubles around [z] beyond. *)
Definition nearestDouble (z : Z) : Z :=
  let a := Z.abs z in
  if a <=? 2 ^ 53 then z
  else
    let u := 2 ^ (Z.log2 a - 52) in
    let q := a / u in
    let r := a mod u in
    let q' := if 2 * r <? u then q
              else if u <? 2 * r then q + 1
              else if Z.even q then q else q + 1 in
    Z.sgn z * (q' * u).

(** The callback given to [setInterval]; [prev - 1] is a subtraction of
    doubles. *)
Definition intervalCallback (p : Page) : Page :=
  match timeRemaining p with
  | None => setTimeRemaining (Some 0) (clearInterval p)
  | Some prev =>
      if prev <=? 1 then setTimeRemaining (Some 0) (clearInterval p)
      else setTimeRemaining (Some (nearestDouble (prev - 1))) p
  end.

(** One second passes: the callback runs if an interval is live. *)
Definition tick (p : Page) : Page :=
  if interval p then intervalCallback p else p.

Fixpoint ticks (k : nat) (p : Page) : Page :=
  match k with
  | O => p
  | S k' => ticks k' (tick p)
  end.

(** The view is closed: the effect cleanup runs. *)
Definition unmount (p : Page) : Page :=
  mkPage (client p) (timeRemaining p) false (pushed p) false.

(** ** The message cache *)

(** The context returned by [onMutate]. *)
Record MutationContext : Type := mkContext { previousMessages : QueryData }.

(** The updater of the [chat.message] handler. *)
Definition mergeMessage (m : Message) (old : QueryData) : QueryData :=
  match old with
  | None => Some [m]
  | Some l => if hasId (id m) l then Some l else Some (l ++ [m])
  end.

Inductive RealtimeEvent : Type :=
| ChatMessage (data : Message)
| ChatDestroy.

(** [onData] of [useRealtime]. *)
Definition onData (ev : RealtimeEvent) (p : Page) : Page :=
  match ev with
  | ChatMessage m => withClient (QueryClient.setQueryData (mergeMessage m)) p
  | ChatDestroy => routerPush destroyedUrl p
  end.

(** [onError]: [if (context?.previousMessages) setQueryData(key, it)]. *)
Definition onError (context : option MutationContext) (p : Page) : Page :=
  match context with
  | Some ctx =>
      match previousMessages ctx with
      | Some l => withClient (QueryClient.setQueryData (fun _ => Some l)) p
      | None => p
      end
  | None => p
  end.

(** [onSuccess] *)
Definition onSuccess (p : Page) : Page :=
  withClient QueryClient.invalidateQueries p.

(** What can happen to a mounted room view, one callback at a time. *)
Inductive Event : Type :=
| FetchStarted
| FetchResolved (tok : nat) (l : list Message)
| FetchRejected (tok : nat)
| Mutate (now : Z) (d : Draft)
| MutationFailed (context : option MutationContext)
| MutationSucceeded
| Realtime (ev : RealtimeEvent)
| TtlData (ttl : option Z)
| Tick
| Unmount.

Section RoomView.

Variable username : string.
Variable room : string.

(** The message synthesised in [onMutate]. *)
Definition optimisticMessage (now : Z) (d : Draft) : Message :=
  mkMessage (d_id d) username (d_text d) now room
            (d_imageBase64 d) (d_imageType d).

(** The updater of [onMutate]. *)
Definition appendOptimistic (now : Z) (d : Draft) (old : QueryData) : QueryData :=
  match old with
  | None => Some [optimisticMessage now d]
  | Some l => Some (l ++ [optimisticMessage now d])
  end.

(** [onMutate]: cancel the fetches in flight, take the snapshot, append. *)
Definition onMutate (now : Z) (d : Draft) (p : Page) : Page * MutationContext :=
  let p1 := withClient QueryClient.cancelQueries p in
  let previous := QueryClient.getQueryData (client p1) in
  let p2 := withClient (QueryClient.setQueryData (appendOptimistic now d)) p1 in
  (p2, mkContext previous).

Definition step (e : Event) (p : Page) : Page :=
  match e with
  | FetchStarted => withClient QueryClient.startFetch p
  | FetchResolved tok l => withClient (QueryClient.resolveFetch tok l) p
  | FetchRejected tok => withClient (QueryClient.rejectFetch tok) p
  | Mutate now d => fst (onMutate now d p)
  | MutationFailed context => onError context p
  | MutationSucceeded => onSuccess p
  | Realtime ev => onData ev p
  | TtlData ttl => ttlEffect ttl p
  | Tick => tick p
  | Unmount => unmount p
  end.

Definition run (evs : list Event) (p : Page) : Page :=
  fold_left (fun q e => step e q) evs p.

(** What the environment is trusted for: the server answers a read with a
    list without repeated ids, and the id of a draft ([crypto.randomUUID()]
    at the only call of [sendMessage]) is not one the cache holds.  A rollback
    is not an event of its own here: its context has to come from an earlier
    [onMutate]. *)
Definition allowed (p : Page) (e : Event) : Prop :=
  match e with
  | FetchResolved _ l => NoDup (map id l)
  | Mutate _ d => ~ In (d_id d) (ids (cache p))
  | MutationFailed (Some _) => False
  | _ => True
  end.

Inductive reachable : Page -> Prop :=
| reach_init : reachable initialPage
| reach_step p e : reachable p -> allowed p e -> reachable (step e p)
| reach_rollback p0 now d p :
    reachable p0 -> reachable p ->
    reachable (onError (Some (snd (onMutate now d p0))) p).

(** The events after which an optimistic entry must still be there: anything
    but a rollback and the answer to a read issued after the append. *)
Definition predatesOrLocal (p0 : Page) (e : Event) : Prop :=
  match e with
  | FetchResolved tok _ => (tok < QueryClient.nextFetch (client p0))%nat
  | MutationFailed _ => False
  | _ => True
  end.

End RoomView.

(** What holds of a page [q] reached after the append made on [p0]: the entry
    [x] is in the list, and every read still awaited was issued later. *)
Definition keeps (p0 : Page) (x : Message) (q : Page) : Prop :=
  In x (messagesOf (cache q)) /\
  Forall (fun tok => (QueryClient.nextFetch (client p0) <= tok)%nat)
         (QueryClient.fetching (client q)) /\
  (QueryClient.nextFetch (client p0) <= QueryClient.nextFetch (client q))%nat.

(** A live interval belongs to a mounted view that counts a positive value. *)
Definition timerConsistent (p : Page) : Prop :=
  interval p = true ->
  mounted p = true /\ exists t, timeRemaining p = Some t /\ 0 < t.


(** ** What the page displays *)

(** [String(n)] of a whole number [n] within the safe integers, where it is
    the decimal writing of [n] in full. *)
Definition numberToString (n : Z) : string :=
  NilZero.string_of_int (Z.to_int n).

(** The first [k] characters of [fill] repeated for ever, [cur] being what is
    left of the copy in progress. *)
Fixpoint repeatFill (k : nat) (cur fill : string) : string :=
  match k with
  | O => ""
  | S k' =>
      match cur with
      | String c r => String c (repeatFill k' r fill)
      | EmptyString =>
          match fill with
          | String c r => String c (repeatFill k' r fill)
          | EmptyString => ""
          end
      end
  end.

(** [s.padStart(targetLength, fill)] *)
Definition padStart (targetLength : nat) (fill s : string) : string :=
  if (targetLength <=? String.length s)%nat then s
  else repeatFill (targetLength - String.length s) fill fill ++ s.

(** [formatTimeRemaining] of a whole number within the safe integers, where
    the division of doubles followed by [Math.floor] is the quotient rounded
    down; [%] keeps the sign of [seconds]. *)
Definition formatTimeRemaining (seconds : Z) : string :=
  let mins := seconds / 60 in
  let secs := Z.rem seconds 60 in
  numberToString mins ++ ":" ++ padStart 2 "0" (numberToString secs).

(** The text of the timer: [timeRemaining !== null ? formatTimeRemaining(..) : "--:--"]. *)
Definition timerText (p : Page) : string :=
  match timeRemaining p with
  | Some t => formatTimeRemaining t
  | None => "--:--"
  end.

(** [s.split(sep)] for a one-character separator. *)
Fixpoint split (sep : ascii) (s : string) : list string :=
  match s with
  | EmptyString => [""]
  | String c r =>
      if Ascii.eqb c sep then "" :: split sep r
      else match split sep r with
           | h :: t => String c h :: t
           | [] => [String c ""]
           end
  end.

(** [parts.join("-")] *)
Definition join (sep : string) (parts : list string) : string :=
  String.concat sep parts.

(** The name shown over a message: [isUser ? "YOU" :
    msg.sender.split("-").slice(0, 2).join("-")]. *)
Definition senderLabel (username : string) (m : Message) : string :=
  if String.eqb (sender m) username then "YOU"
  else join "-" (firstn 2 (split "-" (sender m))).

(** [s[0]], as a string; [None] is [undefined]. *)
Definition firstChar (s : string) : option string :=
  match s with
  | EmptyString => None
  | String c _ => Some (String c "")
  end.

(** [x || y] on strings that may be [undefined]. *)
Definition orElse (x : option string) (y : string) : string :=
  match x with
  | Some (String c r) => String c r
  | _ => y
  end.

(** [getInitials]; [toUpperCase] is the method of the host strings. *)
Definition getInitials (toUpperCase : string -> string) (name : string) : string :=
  let parts := split "-" name in
  if (2 <=? List.length parts)%nat
  then toUpperCase (orElse (match nth_error parts 1 with
                            | Some part => firstChar part
                            | None => None
                            end) "A")
  else orElse (option_map toUpperCase (firstChar name)) "?".

(** ** The composer *)

Module Composer.

(** A JavaScript string, as its UTF-16 code units. *)
Abbreviation jsString := (list N).

(** WhiteSpace and LineTerminator of ECMAScript, what [trim] strips. *)
Definition isWhiteSpace (c : N) : bool :=
  (  (c =? 0x09) || (c =? 0x0A) || (c =? 0x0B) || (c =? 0x0C) || (c =? 0x0D)
  || (c =? 0x20) || (c =? 0xA0) || (c =? 0x1680)
  || ((0x2000 <=? c) && (c <=? 0x200A))
  || (c =? 0x2028) || (c =? 0x2029) || (c =? 0x202F) || (c =? 0x205F)
  || (c =? 0x3000) || (c =? 0xFEFF))%N.

Fixpoint trimStart (s : jsString) : jsString :=
  match s with
  | [] => []
  | c :: s' => if isWhiteSpace c then trimStart s' else s
  end.

Definition trimEnd (s : jsString) : jsString := rev (trimStart (rev s)).

Definition trim (s : jsString) : jsString := trimEnd (trimStart s).

(** Truthiness of a string: the empty string is the only falsy one. *)
Definition truthy (s : jsString) : bool :=
  match s with
  | [] => false
  | _ :: _ => true
  end.

Record Image : Type := mkImage { base64 : string; type : string }.

Record State : Type := mkState {
  input : jsString;
  imagePreview : option string;
  imageData : option Image;
  isUploading : bool;
  fileInputValue : string
}.

(** [removeImage] *)
Definition removeImage (s : State) : State :=
  mkState (input s) None None (isUploading s) "".

Definition setInput (v : jsString) (s : State) : State :=
  mkState v (imagePreview s) (imageData s) (isUploading s) (fileInputValue s).

(** [!input.trim() && !imageData] *)
Definition nothingToSend (s : State) : bool :=
  negb (truthy (trim (input s))) &&
  match imageData s with Some _ => false | None => true end.

(** [handleSend]: the new state and the call made on [onSend], if any. *)
Definition handleSend (s : State) : State * option (jsString * option Image) :=
  if nothingToSend s then (s, None)
  else (removeImage (setInput [] s), Some (input s, imageData s)).

Inductive Gesture : Type :=
| KeyDown (key : string) (shiftKey : bool)
| ClickSend.

(** [disabled] of the send button. *)
Definition sendDisabled (isPending : bool) (s : State) : bool :=
  nothingToSend s || isPending.

Definition react (isPending : bool) (g : Gesture) (s : State)
  : State * option (jsString * option Image) :=
  match g with
  | KeyDown key shiftKey =>
      if String.eqb key "Enter" && negb shiftKey then handleSend s else (s, None)
  | ClickSend =>
      if sendDisabled isPending s then (s, None) else handleSend s
  end.

(** A file handed to [handleImageSelect]: its MIME type and the address
    [URL.createObjectURL] gives it. *)
Record File : Type := mkFile { fileType : string; objectUrl : string }.

(** [handleImageSelect], up to the reads it starts. *)
Definition handleImageSelect (f : File) (s : State) : State :=
  if negb (String.prefix "image/" (fileType f)) then s
  else mkState (input s) (Some (objectUrl f)) (imageData s) true
               (fileInputValue s).

(** [img.onload], which ends the reads [handleImageSelect] started:
    [payload] is [base64.split(",")[1]]. *)
Definition imageLoaded (payload : string) (s : State) : State :=
  mkState (input s) (imagePreview s) (Some (mkImage payload "image/jpeg"))
          false (fileInputValue s).

(** [handleFileChange]: the picker has put [path] in the file input. *)
Definition handleFileChange (path : string) (files : list File) (s : State)
  : State :=
  let s' := mkState (input s) (imagePreview s) (imageData s) (isUploading s)
                    path in
  match files with
  | f :: _ => handleImageSelect f s'
  | [] => s'
  end.

Record ClipboardItem : Type := mkItem {
  itemType : string;
  getAsFile : option File
}.

(** [handlePaste]: the loop over [clipboardData.items], left at the first
    item whose type starts with ["image/"]. *)
Fixpoint handlePaste (items : list ClipboardItem) (s : State) : State :=
  match items with
  | [] => s
  | item :: rest =>
      if String.prefix "image/" (itemType item)
      then match getAsFile item with
           | Some f => handleImageSelect f s
           | None => s
           end
      else handlePaste rest s
  end.

Definition initial : State := mkState [] None None false "".

(** What the user and the browser do to the composer. *)
Inductive Action : Type :=
| Typed (v : jsString)
| ChooseFile (path : string) (files : list File)
| Paste (items : list ClipboardItem)
| ImageLoaded (payload : string)
| RemoveImage
| Do (g : Gesture).

Definition act (isPending : bool) (a : Action) (s : State)
  : State * option (jsString * option Image) :=
  match a with
  | Typed v => (setInput v s, None)
  | ChooseFile path files => (handleFileChange path files s, None)
  | Paste items => (handlePaste items s, None)
  | ImageLoaded payload => (imageLoaded payload s, None)
  | RemoveImage => (removeImage s, None)
  | Do g => react isPending g s
  end.

Inductive reachable : State -> Prop :=
| reach_initial : reachable initial
| reach_act s isPending a :
    reachable s -> reachable (fst (act isPending a s)).

End Composer.

(** ** From the composer to the cache, and what a bubble shows *)

Definition cameraText : string := "📷".

(** The variables [onSend] gives to [sendMessage]; [uuid] is the value of
    [crypto.randomUUID()]. *)
Definition onSend (uuid : string) (text : string)
    (image : option Composer.Image) : Draft :=
  mkDraft (match text with
           | EmptyString =>
               match image with
               | Some _ => cameraText
               | None => ""
               end
           | String _ _ => text
           end)
          (option_map Composer.base64 image)
          (option_map Composer.type image)
          uuid.

(** [msg.imageBase64 && ...]: the picture is drawn. *)
Definition showsImage (m : Message) : bool :=
  match imageBase64 m with
  | Some (String _ _) => true
  | _ => false
  end.

(** [msg.text && msg.text !== "📷" && ...]: the paragraph is drawn. *)
Definition showsText (m : Message) : bool :=
  match text m with
  | EmptyString => false
  | String _ _ => negb (String.eqb (text m) cameraText)
  end.

(** ** Auxiliary notions for the statements *)

(** Realtime messages delivered one after the other. *)
Definition deliver (ms : list Message) (s : QueryData) : QueryData :=
  fold_left (fun c m => mergeMessage m c) ms s.

(** The entry found under an id, reading from the head. *)
Definition lookupId (x : string) (l : list Message) : option Message :=
  find (fun m => String.eqb (id m) x) l.

(** The callbacks that neither write a server read to the cache nor roll
    back. *)
Definition appendsOnly (e : Event) : bool :=
  match e with
  | FetchResolved _ _ => false
  | MutationFailed _ => false
  | _ => true
  end.

(** How many [chat.destroy] events a sequence of callbacks holds. *)
Definition destroySignals (evs : list Event) : nat :=
  List.length (filter (fun e => match e with
                                | Realtime ChatDestroy => true
                                | _ => false
                                end) evs).

(** The decimal digit [d] as a character, and a two-digit field. *)
Definition digit (d : Z) : ascii := ascii_of_nat (48 + Z.to_nat d).

Definition twoDigits (r : Z) : string :=
  String (digit (r / 10)) (String (digit (r mod 10)) "").

Definition countChar (c : ascii) (s : string) : nat :=
  List.length (filter (Ascii.eqb c) (list_ascii_of_string s)).

Definition isEnter (g : Composer.Gesture) : bool :=
  match g with
  | Composer.KeyDown key shiftKey => String.eqb key "Enter" && negb shiftKey
  | Composer.ClickSend => false
  end.

(** ** Sample values *)

Definition m1 : Message := mkMessage "m1" "bob" "hello" 1000 "r1" None None.
Definition mb : Message := mkMessage "b" "alice" "hi" 2500 "r1" None None.
Definition draftA : Draft := mkDraft "hi" None None "a".
Definition draftB : Draft := mkDraft "hi" None None "b".
Definition draft2 : Draft := mkDraft "see you" None None "m2".

(** A view whose cache holds [[m1]]. *)
Definition pageM1 : Page :=
  mkPage (QueryClient.mk (Some [m1]) [] 1%nat) None false [] true.

(** A view whose first read is still in flight. *)
Definition pageFetching : Page :=
  mkPage (QueryClient.mk None [0%nat] 1%nat) None false [] true.

(** A blank composer (a space and a tab) and one holding a word. *)
Definition blankComposer : Composer.State :=
  Composer.mkState [0x20; 0x09]%N None None false "".
Definition wordComposer : Composer.State :=
  Composer.mkState [0x68; 0x69]%N None None false "".

(** A picture file, a text file, and what a clipboard may hold. *)
Definition pngFile : Composer.File := Composer.mkFile "image/png" "blob:1".
Definition textItem : Composer.ClipboardItem :=
  Composer.mkItem "text/plain" None.
Definition emptyImageItem : Composer.ClipboardItem :=
  Composer.mkItem "image/png" None.
Definition pngItem : Composer.ClipboardItem :=
  Composer.mkItem "image/png" (Some pngFile).

(** Code units below 256 read as characters. *)
Definition latin1 (v : list N) : string :=
  string_of_list_ascii (map ascii_of_N v).

(** * Properties *)

(** ** Membership by id *)

Lemma hasId_true_iff (x : string) (l : list Message) :
  hasId x l = true <-> exists m, In m l /\ id m = x.
Proof.
  unfold hasId. rewrite existsb_exists.
  split; intros [m [Hin Hm]]; exists m; split; trivial.
  - now apply String.eqb_eq.
  - now apply String.eqb_eq.
Qed.

Lemma hasId_In_ids (x : string) (l : list Message) :
  hasId x l = true <-> In x (map id l).
Proof.
  rewrite hasId_true_iff, in_map_iff.
  split; intros [m [H1 H2]]; exists m; tauto.
Qed.

Lemma hasId_app (x : string) (l1 l2 : list Message) :
  hasId x (l1 ++ l2) = hasId x l1 || hasId x l2.
Proof. unfold hasId. apply existsb_app. Qed.

Lemma hasId_last (m : Message) (l : list Message) :
  hasId (id m) (l ++ [m]) = true.
Proof.
  rewrite hasId_app. simpl. rewrite String.eqb_refl.
  now rewrite orb_true_r.
Qed.

(** A page is determined by its fields. *)
Lemma withClient_ext (f g : QueryClient.t -> QueryClient.t) (p : Page) :
  f (client p) = g (client p) -> withClient f p = withClient g p.
Proof. unfold withClient. intros ->. reflexivity. Qed.

Lemma cache_withClient_set (upd : QueryData -> QueryData) (p : Page) :
  cache (withClient (QueryClient.setQueryData upd) p) = upd (cache p).
Proof. reflexivity. Qed.

(** ** The realtime merge *)

Lemma mergeMessage_present (m : Message) (l : list Message) :
  hasId (id m) l = true -> mergeMessage m (Some l) = Some l.
Proof. intros H. simpl. now rewrite H. Qed.

Lemma mergeMessage_absent (m : Message) (l : list Message) :
  hasId (id m) l = false -> mergeMessage m (Some l) = Some (l ++ [m]).
Proof. intros H. simpl. now rewrite H. Qed.

Lemma mergeMessage_holds_id (m : Message) (s : QueryData) :
  hasId (id m) (messagesOf (mergeMessage m s)) = true.
Proof.
  destruct s as [l|]; simpl.
  - destruct (hasId (id m) l) eqn:E; simpl; trivial. apply hasId_last.
  - now rewrite String.eqb_refl.
Qed.

(** A second delivery under the same id is absorbed, whatever else the
    redelivered record carries. *)
Lemma mergeMessage_same_id (m m' : Message) (s : QueryData) :
  id m' = id m -> mergeMessage m' (mergeMessage m s) = mergeMessage m s.
Proof.
  intros E. pose proof (mergeMessage_holds_id m s) as H.
  destruct (mergeMessage m s) as [l|] eqn:Hs.
  - simpl in H. simpl. now rewrite E, H.
  - destruct s as [l|]; simpl in Hs; [destruct (hasId (id m) l)|]; discriminate.
Qed.

(** C2. The realtime merge is idempotent: merging a message into a room state
    that already went through the merge of that message changes nothing, for
    the updater given to [setQueryData] and for the [chat.message] handler on
    the whole page. *)
Theorem merge_idempotent (s : QueryData) (m : Message) (p : Page) :
  mergeMessage m (mergeMessage m s) = mergeMessage m s /\
  onData (ChatMessage m) (onData (ChatMessage m) p) = onData (ChatMessage m) p.
Proof.
  split.
  - now apply mergeMessage_same_id.
  - unfold onData, withClient, QueryClient.setQueryData; simpl.
    now rewrite mergeMessage_same_id.
Qed.


(** ** Optimistic send and rollback *)

Section OptimisticSend.

Variable username : string.
Variable room : string.

Lemma cache_onMutate (now : Z) (d : Draft) (p : Page) :
  cache (fst (onMutate username room now d p)) =
  Some (messagesOf (cache p) ++ [optimisticMessage username room now d]).
Proof.
  unfold onMutate, cache; simpl.
  destruct (QueryClient.data (client p)); reflexivity.
Qed.

Lemma snapshot_onMutate (now : Z) (d : Draft) (p : Page) :
  previousMessages (snd (onMutate username room now d p)) = cache p.
Proof. reflexivity. Qed.

Lemma fetching_onMutate (now : Z) (d : Draft) (p : Page) :
  QueryClient.fetching (client (fst (onMutate username room now d p))) = [].
Proof. reflexivity. Qed.

(** C4. [onMutate], which runs before the request is issued, leaves in the
    cache the former list followed by one message made of the draft's id, the
    user's name, the clock value, the room and the draft's text and image
    fields; from an empty room state the result is a one-element list holding
    that id, sender and text. *)
Theorem optimistic_append (now : Z) (d : Draft) (p : Page) :
  cache (step username room (Mutate now d) p) =
    Some (messagesOf (cache p) ++
          [mkMessage (d_id d) username (d_text d) now room
                     (d_imageBase64 d) (d_imageType d)]) /\
  (messagesOf (cache p) = [] ->
   exists m, cache (step username room (Mutate now d) p) = Some [m] /\
             id m = d_id d /\ sender m = username /\ text m = d_text d /\
             timestamp m = now /\
             imageBase64 m = d_imageBase64 d /\ imageType m = d_imageType d).
Proof.
  split.
  - apply cache_onMutate.
  - intros He. exists (optimisticMessage username room now d).
    change (step username room (Mutate now d) p)
      with (fst (onMutate username room now d p)).
    rewrite cache_onMutate, He. simpl. repeat split.
Qed.

Lemma app_one_neq {A : Type} (l : list A) (x : A) : l <> l ++ [x].
Proof.
  intros H. apply (f_equal (@List.length A)) in H.
  rewrite length_app in H. simpl in H. lia.
Qed.

(** C1, as the code has it. When the cache holds a list (an empty one
    included) at the time of [onMutate], a failed send puts back exactly that
    list, whatever was written to the cache in between, and the optimistic
    append is gone. *)
Theorem rollback_restores_snapshot
    (now : Z) (d : Draft) (p q : Page) (l : list Message) :
  cache p = Some l ->
  cache (onError (Some (snd (onMutate username room now d p))) q) = Some l /\
  cache (onError (Some (snd (onMutate username room now d p)))
                 (fst (onMutate username room now d p)))
    <> cache (fst (onMutate username room now d p)).
Proof.
  intros Hp.
  assert (R : forall q', cache (onError (Some (snd (onMutate username room now d p))) q') = Some l).
  { intros q'. unfold onError. rewrite snapshot_onMutate, Hp. reflexivity. }
  split.
  - apply R.
  - rewrite R, cache_onMutate, Hp. simpl.
    intros H. injection H as H. now apply app_one_neq in H.
Qed.

End OptimisticSend.

(** ** Uniqueness of ids *)

Lemma countId_absent (x : string) (l : list Message) :
  ~ In x (map id l) -> countId x l = 0%nat.
Proof.
  unfold countId. induction l as [|m l IH]; simpl; intros H; trivial.
  destruct (String.eqb_spec (id m) x) as [E|E].
  - exfalso. apply H. now left.
  - apply IH. intros Hin. apply H. now right.
Qed.

Lemma countId_unique (x : string) (l : list Message) :
  NoDup (map id l) -> In x (map id l) -> countId x l = 1%nat.
Proof.
  induction l as [|m l IH]; simpl; intros Hn Hin; [contradiction|].
  apply NoDup_cons_iff in Hn as [Hm Hn].
  unfold countId in *. simpl.
  destruct (String.eqb_spec (id m) x) as [E|E].
  - simpl. f_equal. apply countId_absent. now rewrite <- E.
  - destruct Hin as [Hin|Hin]; [contradiction|]. now apply IH.
Qed.

Lemma NoDup_ids_snoc (m : Message) (l : list Message) :
  NoDup (map id l) -> ~ In (id m) (map id l) -> NoDup (map id (l ++ [m])).
Proof.
  intros Hn Hm. rewrite map_app. apply NoDup_app; trivial.
  - simpl. constructor; [intros []|constructor].
  - intros a Ha [<-|[]]. contradiction.
Qed.

Lemma NoDup_ids_merge (m : Message) (s : QueryData) :
  NoDup (ids s) -> NoDup (ids (mergeMessage m s)).
Proof.
  unfold ids. destruct s as [l|]; simpl; intros Hn.
  - destruct (hasId (id m) l) eqn:E; simpl; trivial.
    apply NoDup_ids_snoc; trivial.
    intros Hin. apply hasId_In_ids in Hin. congruence.
  - constructor; [intros []|constructor].
Qed.

Lemma client_setTimeRemaining (v : option Z) (p : Page) :
  client (setTimeRemaining v p) = client p.
Proof.
  unfold setTimeRemaining, countdownEffect.
  destruct (negb (mounted p)); trivial.
  destruct (sameValue v (timeRemaining p)); trivial.
  simpl. destruct v as [t|]; trivial.
  destruct (t <? 0); trivial. destruct (t =? 0); trivial.
Qed.

Lemma client_tick (p : Page) : client (tick p) = client p.
Proof.
  unfold tick, intervalCallback.
  destruct (interval p); trivial.
  destruct (timeRemaining p) as [t|].
  - destruct (t <=? 1); now rewrite client_setTimeRemaining.
  - now rewrite client_setTimeRemaining.
Qed.

Lemma client_ttlEffect (ttl : option Z) (p : Page) :
  client (ttlEffect ttl p) = client p.
Proof. destruct ttl; simpl; trivial. apply client_setTimeRemaining. Qed.

Section Uniqueness.

Variable username : string.
Variable room : string.

Lemma cache_onError (ctx : MutationContext) (p : Page) :
  cache (onError (Some ctx) p) =
  match previousMessages ctx with
  | Some l => Some l
  | None => cache p
  end.
Proof. unfold onError. destruct (previousMessages ctx); reflexivity. Qed.

Lemma NoDup_ids_step (e : Event) (p : Page) :
  allowed p e -> NoDup (ids (cache p)) ->
  NoDup (ids (cache (step username room e p))).
Proof.
  intros Ha Hn. destruct e; cbn [step]; trivial.
  - unfold cache, withClient, QueryClient.resolveFetch; simpl.
    destruct (QueryClient.isFetching tok (client p)); simpl; trivial.
  - rewrite cache_onMutate. simpl in Ha. unfold ids in *. simpl.
    now apply NoDup_ids_snoc.
  - destruct context as [ctx|]; [contradiction|trivial].
  - destruct ev as [m|]; cbn [onData]; trivial.
    rewrite cache_withClient_set. now apply NoDup_ids_merge.
  - unfold cache. now rewrite client_ttlEffect.
  - unfold cache. now rewrite client_tick.
Qed.

Lemma reachable_NoDup (p : Page) :
  reachable username room p -> NoDup (ids (cache p)).
Proof.
  induction 1 as [|p e Hr IH Ha|p0 now d p Hr0 IH0 Hr IH].
  - constructor.
  - now apply NoDup_ids_step.
  - rewrite cache_onError, snapshot_onMutate.
    destruct (cache p0) as [l|] eqn:E; trivial.
Qed.

(** C5. In every state the room view can reach, no two entries of the message
    list carry the same id. In particular, once a draft has been appended
    optimistically, a realtime copy under the same id that arrives before the
    send is seen to succeed is absorbed, the list holds that id once, and it
    still holds it once after the refresh the success triggers. *)
Theorem ids_unique (p : Page) :
  reachable username room p ->
  NoDup (ids (cache p)) /\
  (forall now d m,
      ~ In (d_id d) (ids (cache p)) -> id m = d_id d ->
      let p1 := step username room (Mutate now d) p in
      let p2 := step username room (Realtime (ChatMessage m)) p1 in
      cache p2 = cache p1 /\
      countId (d_id d) (messagesOf (cache p2)) = 1%nat /\
      (forall l,
          NoDup (map id l) -> In (d_id d) (map id l) ->
          let p3 := step username room MutationSucceeded p2 in
          let p4 := step username room
                      (FetchResolved (QueryClient.nextFetch (client p2)) l) p3 in
          cache p4 = Some l /\
          countId (d_id d) (messagesOf (cache p4)) = 1%nat)).
Proof.
  intros Hr. split; [now apply reachable_NoDup|].
  intros now d m Hfresh Hid p1 p2.
  assert (Hr1 : reachable username room p1)
    by (apply reach_step; trivial).
  assert (Hr2 : reachable username room p2)
    by (apply reach_step; simpl; trivial).
  assert (Hc1 : cache p1 =
                Some (messagesOf (cache p) ++ [optimisticMessage username room now d]))
    by apply cache_onMutate.
  assert (Hc2 : cache p2 = cache p1).
  { unfold p2. cbn [step onData]. rewrite cache_withClient_set, Hc1.
    apply mergeMessage_present. rewrite Hid.
    apply (hasId_last (optimisticMessage username room now d)). }
  split; trivial. split.
  - apply countId_unique.
    + apply (reachable_NoDup p2 Hr2).
    + rewrite Hc2, Hc1. simpl. rewrite map_app. apply in_or_app. right. now left.
  - intros l Hn Hin p3 p4.
    assert (Hc4 : cache p4 = Some l).
    { unfold p4, p3, cache. simpl.
      unfold QueryClient.resolveFetch, QueryClient.isFetching. simpl.
      now rewrite Nat.eqb_refl. }
    split; trivial. rewrite Hc4. simpl. now apply countId_unique.
Qed.

End Uniqueness.

(** ** Reads in flight at the time of an optimistic append *)

Section StaleReads.

Variable username : string.
Variable room : string.

Lemma withClient_id (f : QueryClient.t -> QueryClient.t) (p : Page) :
  f (client p) = client p -> withClient f p = p.
Proof. unfold withClient. intros ->. now destruct p. Qed.

Lemma isFetching_true_iff (tok : nat) (q : QueryClient.t) :
  QueryClient.isFetching tok q = true <-> In tok (QueryClient.fetching q).
Proof.
  unfold QueryClient.isFetching. rewrite existsb_exists. split.
  - intros [k [Hin Hk]]. apply Nat.eqb_eq in Hk. now subst.
  - intros Hin. exists tok. split; trivial. apply Nat.eqb_refl.
Qed.

Lemma keeps_same_client p0 x q q' :
  client q' = client q -> keeps p0 x q -> keeps p0 x q'.
Proof. unfold keeps, cache. now intros ->. Qed.

Lemma Forall_forget (P : nat -> Prop) (tok : nat) (q : QueryClient.t) :
  Forall P (QueryClient.fetching q) -> Forall P (QueryClient.forget tok q).
Proof.
  unfold QueryClient.forget. rewrite !Forall_forall.
  intros H k Hk. apply filter_In in Hk. now apply H.
Qed.

Lemma In_merge (x m : Message) (s : QueryData) :
  In x (messagesOf s) -> In x (messagesOf (mergeMessage m s)).
Proof.
  destruct s as [l|]; simpl; [|contradiction].
  intros H. destruct (hasId (id m) l); simpl; trivial.
  apply in_or_app. now left.
Qed.

Lemma keeps_step p0 x e q :
  predatesOrLocal p0 e -> keeps p0 x q -> keeps p0 x (step username room e q).
Proof.
  intros He (Hx & Hf & Hn). destruct e; cbn [step].
  - (* FetchStarted *)
    repeat split; simpl; trivial.
    + constructor; trivial.
    + lia.
  - (* FetchResolved *)
    simpl in He.
    rewrite withClient_id; [now repeat split|].
    unfold QueryClient.resolveFetch.
    destruct (QueryClient.isFetching tok (client q)) eqn:E; trivial.
    apply isFetching_true_iff in E.
    rewrite Forall_forall in Hf. apply Hf in E. lia.
  - (* FetchRejected *)
    repeat split; simpl; trivial. now apply Forall_forget.
  - (* Mutate *)
    split; [|split].
    + rewrite cache_onMutate. simpl. apply in_or_app. now left.
    + rewrite fetching_onMutate. constructor.
    + exact Hn.
  - (* MutationFailed *)
    contradiction.
  - (* MutationSucceeded *)
    repeat split; simpl; trivial.
    + constructor; trivial.
    + lia.
  - (* Realtime *)
    destruct ev as [m|]; cbn [onData].
    + repeat split; trivial. rewrite cache_withClient_set. now apply In_merge.
    + now repeat split.
  - (* TtlData *)
    apply (keeps_same_client p0 x q); [apply client_ttlEffect|now repeat split].
  - (* Tick *)
    apply (keeps_same_client p0 x q); [apply client_tick|now repeat split].
  - (* Unmount *)
    now repeat split.
Qed.

Lemma keeps_run p0 x evs : forall q,
  Forall (predatesOrLocal p0) evs -> keeps p0 x q ->
  keeps p0 x (run username room evs q).
Proof.
  induction evs as [|e evs IH]; intros q Hall Hq; simpl; trivial.
  apply Forall_cons_iff in Hall as [He Hall].
  apply IH; trivial. now apply keeps_step.
Qed.

(** C9. [onMutate] cancels the reads in flight before it appends: right after
    it no read is awaited, the answer to any read is dropped, and through any
    later sequence of callbacks that holds no rollback and no answer to a read
    issued after the append (answers to earlier reads, realtime events, further
    sends, ticks), the optimistic entry stays in the cache. *)
Theorem stale_read_cannot_clobber
    (now : Z) (d : Draft) (p : Page) (evs : list Event) :
  Forall (predatesOrLocal p) evs ->
  let p' := fst (onMutate username room now d p) in
  QueryClient.fetching (client p') = [] /\
  (forall tok l, step username room (FetchResolved tok l) p' = p') /\
  In (optimisticMessage username room now d)
     (messagesOf (cache (run username room evs p'))).
Proof.
  intros Hall p'. split; [reflexivity|]. split.
  - intros tok l. cbn [step]. now apply withClient_id.
  - apply (keeps_run p); trivial.
    repeat split.
    + unfold p'. rewrite cache_onMutate. simpl. apply in_or_app. right. now left.
    + unfold p'. rewrite fetching_onMutate. constructor.
    + simpl. lia.
Qed.

End StaleReads.

(** ** The countdown *)

Lemma setTimeRemaining_fresh (v : option Z) (p : Page) :
  mounted p = true -> sameValue v (timeRemaining p) = false ->
  setTimeRemaining v p =
  countdownEffect (mkPage (client p) v false (pushed p) true).
Proof.
  unfold setTimeRemaining, clearInterval, writeTimeRemaining.
  intros -> ->. reflexivity.
Qed.

(** The TTL is seen for the first time. *)
Lemma arm_positive (n : Z) (p : Page) :
  mounted p = true -> timeRemaining p = None -> 0 < n ->
  ttlEffect (Some n) p = mkPage (client p) (Some n) true (pushed p) true.
Proof.
  intros Hm Ht Hn. cbn [ttlEffect].
  rewrite setTimeRemaining_fresh; trivial; [|now rewrite Ht].
  unfold countdownEffect; simpl.
  destruct (Z.ltb_spec n 0); [lia|].
  destruct (Z.eqb_spec n 0); [lia|]. reflexivity.
Qed.

Lemma arm_zero (p : Page) :
  mounted p = true -> timeRemaining p = None ->
  ttlEffect (Some 0) p =
  mkPage (client p) (Some 0) false (pushed p ++ [destroyedUrl]) true.
Proof.
  intros Hm Ht. cbn [ttlEffect].
  rewrite setTimeRemaining_fresh; trivial. now rewrite Ht.
Qed.

Lemma arm_negative (n : Z) (p : Page) :
  mounted p = true -> timeRemaining p = None -> n < 0 ->
  ttlEffect (Some n) p = mkPage (client p) (Some n) false (pushed p) true.
Proof.
  intros Hm Ht Hn. cbn [ttlEffect].
  rewrite setTimeRemaining_fresh; trivial; [|now rewrite Ht].
  unfold countdownEffect; simpl.
  destruct (Z.ltb_spec n 0); [reflexivity|lia].
Qed.

Lemma tick_idle (p : Page) : interval p = false -> tick p = p.
Proof. unfold tick. now intros ->. Qed.

Lemma ticks_idle (k : nat) (p : Page) : interval p = false -> ticks k p = p.
Proof.
  intros H. induction k as [|k IH]; simpl; trivial. now rewrite tick_idle.
Qed.

(** Up to [2^53] every whole number is a double. *)
Lemma nearestDouble_exact (z : Z) :
  Z.abs z <= maxSafeInteger + 1 -> nearestDouble z = z.
Proof.
  unfold nearestDouble, maxSafeInteger. intros H.
  destruct (Z.leb_spec (Z.abs z) (2 ^ 53)) as [_|Hgt]; [reflexivity|].
  change (2 ^ 53) with 9007199254740992 in Hgt. lia.
Qed.

(** Beyond [2^53] the doubles are 2 apart, then 4 apart, and a tie goes to
    the even significand. *)
Example nearestDouble_beyond_safe_integers :
  nearestDouble (2 ^ 53 + 1) = 2 ^ 53 /\
  nearestDouble (2 ^ 53 + 2) = 2 ^ 53 + 2 /\
  nearestDouble (2 ^ 53 + 3) = 2 ^ 53 + 4 /\
  nearestDouble (2 ^ 54 - 1) = 2 ^ 54 /\
  nearestDouble (2 ^ 54 + 2) = 2 ^ 54 /\
  nearestDouble (2 ^ 54 + 6) = 2 ^ 54 + 8 /\
  nearestDouble (- (2 ^ 53) - 1) = - (2 ^ 53).
Proof. repeat split. Qed.

Lemma tick_above_one (c : QueryClient.t) (t : Z) (ps : list string) :
  1 < t -> t <= maxSafeInteger ->
  tick (mkPage c (Some t) true ps true) = mkPage c (Some (t - 1)) true ps true.
Proof.
  intros Ht Hs. unfold tick, intervalCallback; simpl.
  destruct (Z.leb_spec t 1); [lia|].
  rewrite nearestDouble_exact by lia.
  rewrite setTimeRemaining_fresh; simpl; trivial.
  - unfold countdownEffect; simpl.
    destruct (Z.ltb_spec (t - 1) 0); [lia|].
    destruct (Z.eqb_spec (t - 1) 0); [lia|]. reflexivity.
  - apply Z.eqb_neq. lia.
Qed.

Lemma tick_at_one (c : QueryClient.t) (ps : list string) :
  tick (mkPage c (Some 1) true ps true) =
  mkPage c (Some 0) false (ps ++ [destroyedUrl]) true.
Proof. reflexivity. Qed.

(** [k] seconds of a countdown that stands at [t >= k]. *)
Lemma ticks_running (c : QueryClient.t) (ps : list string) (k : nat) :
  forall t : Z,
  0 < t -> t <= maxSafeInteger -> Z.of_nat k <= t ->
  ticks k (mkPage c (Some t) true ps true) =
  if Z.of_nat k =? t
  then mkPage c (Some 0) false (ps ++ [destroyedUrl]) true
  else mkPage c (Some (t - Z.of_nat k)) true ps true.
Proof.
  induction k as [|k IH]; intros t Ht Hs Hk.
  - cbn [ticks Z.of_nat]. destruct (Z.eqb_spec 0 t); [lia|]. now rewrite Z.sub_0_r.
  - cbn [ticks]. destruct (Z.eq_dec t 1) as [->|Hne].
    + rewrite tick_at_one. rewrite ticks_idle by reflexivity.
      assert (k = 0%nat) as -> by lia. reflexivity.
    + rewrite tick_above_one by lia.
      rewrite IH by lia.
      destruct (Z.eqb_spec (Z.of_nat k) (t - 1));
        destruct (Z.eqb_spec (Z.of_nat (S k)) t); try lia; trivial.
      f_equal. f_equal. lia.
Qed.

Lemma ticks_add (j k : nat) (p : Page) :
  ticks (j + k) p = ticks k (ticks j p).
Proof.
  revert p. induction j as [|j IH]; intros p; simpl; trivial.
Qed.

(** C6, as stated, fails beyond the safe integers: a countdown armed at
    [2^54] has a live interval, yet a tick leaves the page as it is (the
    double nearest to [2^54 - 1] is [2^54], and a state set to the value it
    holds renders nothing), so the value never moves, never is 0, and no
    teardown is ever made. *)
Lemma countdown_stalls_beyond_safe_integers :
  interval (ttlEffect (Some (2 ^ 54)) initialPage) = true /\
  timeRemaining (tick (ttlEffect (Some (2 ^ 54)) initialPage)) = Some (2 ^ 54) /\
  timeRemaining (tick (ttlEffect (Some (2 ^ 54)) initialPage))
    <> Some (2 ^ 54 - 1) /\
  (forall k,
     ticks k (ttlEffect (Some (2 ^ 54)) initialPage)
       = ttlEffect (Some (2 ^ 54)) initialPage /\
     timeRemaining (ticks k (ttlEffect (Some (2 ^ 54)) initialPage)) <> Some 0 /\
     pushed (ticks k (ttlEffect (Some (2 ^ 54)) initialPage)) = []).
Proof.
  assert (Hfix : tick (ttlEffect (Some (2 ^ 54)) initialPage)
                 = ttlEffect (Some (2 ^ 54)) initialPage)
    by (vm_compute; reflexivity).
  assert (Hall : forall k, ticks k (ttlEffect (Some (2 ^ 54)) initialPage)
                           = ttlEffect (Some (2 ^ 54)) initialPage).
  { induction k as [|k IH]; cbn [ticks]; [reflexivity|]. now rewrite Hfix. }
  split; [vm_compute; reflexivity|]. split; [vm_compute; reflexivity|].
  split; [vm_compute; discriminate|].
  intros k. rewrite Hall. split; [reflexivity|].
  split; [vm_compute; discriminate|vm_compute; reflexivity].
Qed.

(** C6, as the code has it. A countdown armed at a whole number [n] with
    [0 <= n <= 2^53 - 1] and left to tick: after [k <= n] seconds the value is
    [n - k] (each tick on a positive value takes exactly one off); no
    navigation is made before the value is 0; from [n] seconds on the value is
    0, no interval is live, and the teardown navigation has been made exactly
    once; and even the interval callback run once more on a page at 0 neither
    navigates nor changes the value. *)
Theorem countdown_reaches_zero_once (n : Z) (p : Page) :
  mounted p = true -> timeRemaining p = None -> 0 <= n ->
  n <= maxSafeInteger ->
  let armed := ttlEffect (Some n) p in
  (forall k, Z.of_nat k <= n ->
     timeRemaining (ticks k armed) = Some (n - Z.of_nat k)) /\
  (forall q t, mounted q = true -> interval q = true ->
     timeRemaining q = Some t -> 0 < t -> t <= maxSafeInteger ->
     timeRemaining (tick q) = Some (t - 1)) /\
  (forall k, Z.of_nat k < n -> pushed (ticks k armed) = pushed p) /\
  (forall k, n <= Z.of_nat k ->
     timeRemaining (ticks k armed) = Some 0 /\
     interval (ticks k armed) = false /\
     pushed (ticks k armed) = pushed p ++ [destroyedUrl]) /\
  (forall q, timeRemaining q = Some 0 ->
     timeRemaining (intervalCallback q) = Some 0 /\
     pushed (intervalCallback q) = pushed q).
Proof.
  intros Hm Ht Hn Hsafe armed.
  assert (Hend : forall k, n <= Z.of_nat k ->
            ticks k armed =
            mkPage (client p) (Some 0) false (pushed p ++ [destroyedUrl]) true).
  { intros k Hk. unfold armed.
    destruct (Z.eq_dec n 0) as [->|Hne].
    - rewrite arm_zero by trivial. now apply ticks_idle.
    - rewrite arm_positive by (trivial; lia).
      replace k with (Z.to_nat n + (k - Z.to_nat n))%nat by lia.
      rewrite ticks_add, ticks_running by lia.
      rewrite Z2Nat.id, Z.eqb_refl by lia. now apply ticks_idle. }
  assert (Hrun : forall k, Z.of_nat k < n ->
            ticks k armed =
            mkPage (client p) (Some (n - Z.of_nat k)) true (pushed p) true).
  { intros k Hk. unfold armed. rewrite arm_positive by (trivial; lia).
    rewrite ticks_running by lia.
    destruct (Z.eqb_spec (Z.of_nat k) n); [lia|reflexivity]. }
  split; [|split; [|split; [|split]]].
  - intros k Hk. destruct (Z.eq_dec (Z.of_nat k) n) as [E|E].
    + rewrite Hend by lia. simpl. f_equal. lia.
    + now rewrite Hrun by lia.
  - intros q t Hq Hi Hv Hpos Hts. destruct q as [c v i ps m]; simpl in *. subst.
    destruct (Z.eq_dec t 1) as [->|Hne].
    + now rewrite tick_at_one.
    + now rewrite tick_above_one by lia.
  - intros k Hk. now rewrite Hrun.
  - intros k Hk. now rewrite Hend.
  - intros q Hq. unfold intervalCallback. rewrite Hq. simpl.
    unfold setTimeRemaining. simpl.
    destruct (negb (mounted q)); simpl; [now split|].
    rewrite Hq. simpl. now split.
Qed.

(** ** The destroy signal *)

(** C7, as stated, fails: the [chat.destroy] handler only calls the router.
    On a view armed at 300 the interval is still live after the signal and the
    next tick takes the value to 299; on a view armed at 1 the next tick makes
    a second navigation. *)
Lemma destroy_leaves_interval_live :
  interval (onData ChatDestroy (ttlEffect (Some 300) initialPage)) = true /\
  timeRemaining (tick (onData ChatDestroy (ttlEffect (Some 300) initialPage)))
    = Some 299 /\
  pushed (tick (onData ChatDestroy (ttlEffect (Some 1) initialPage)))
    = [destroyedUrl; destroyedUrl].
Proof. repeat split. Qed.

(** C7, as the code has it. From every page state the [chat.destroy] handler
    makes at once the navigation that expiry makes (the same call on the
    router, with the same address) and leaves the countdown value and its
    interval as they were; the ticking ends when the view is unmounted, whose
    cleanup clears the interval: from then on no tick and no TTL data changes
    the page or navigates. *)
Theorem destroy_navigates_like_expiry (p : Page) :
  onData ChatDestroy p = routerPush destroyedUrl p /\
  pushed (onData ChatDestroy p) = pushed p ++ [destroyedUrl] /\
  (forall q, timeRemaining q = Some 0 ->
     countdownEffect q = routerPush destroyedUrl q) /\
  timeRemaining (onData ChatDestroy p) = timeRemaining p /\
  interval (onData ChatDestroy p) = interval p /\
  (forall k ttl,
     ticks k (unmount (onData ChatDestroy p)) = unmount (onData ChatDestroy p) /\
     ttlEffect ttl (unmount (onData ChatDestroy p))
       = unmount (onData ChatDestroy p)).
Proof.
  repeat split.
  - intros q Hq. unfold countdownEffect. now rewrite Hq.
  - now apply ticks_idle.
  - destruct ttl; reflexivity.
Qed.

(** ** Negative values *)

Lemma consistent_setTimeRemaining (v : option Z) (p : Page) :
  timerConsistent p -> timerConsistent (setTimeRemaining v p).
Proof.
  intros Hp. unfold setTimeRemaining.
  destruct (mounted p) eqn:Hm; simpl; trivial.
  destruct (sameValue v (timeRemaining p)); trivial.
  unfold countdownEffect; simpl.
  destruct v as [t|]; [|intros H; discriminate H].
  destruct (Z.ltb_spec t 0); [intros H'; discriminate H'|].
  destruct (Z.eqb_spec t 0); [intros H'; discriminate H'|].
  intros _. simpl. split; trivial. exists t. split; [reflexivity|lia].
Qed.

Lemma consistent_idle (p : Page) : interval p = false -> timerConsistent p.
Proof. intros H H'. congruence. Qed.

Lemma consistent_tick (p : Page) :
  timerConsistent p -> timerConsistent (tick p).
Proof.
  intros Hp. unfold tick. destruct (interval p); trivial.
  unfold intervalCallback.
  destruct (timeRemaining p) as [t|]; [destruct (t <=? 1)|];
    apply consistent_setTimeRemaining; trivial;
    now apply consistent_idle.
Qed.

Lemma consistent_same_timer (p q : Page) :
  timeRemaining q = timeRemaining p -> interval q = interval p ->
  mounted q = mounted p -> timerConsistent p -> timerConsistent q.
Proof. unfold timerConsistent. now intros -> -> ->. Qed.

Section NegativeValues.

Variable username : string.
Variable room : string.

Lemma consistent_step (e : Event) (p : Page) :
  timerConsistent p -> timerConsistent (step username room e p).
Proof.
  intros Hp. destruct e; cbn [step];
    try (now apply (consistent_same_timer p)).
  - destruct context as [[[l|]]|]; now apply (consistent_same_timer p).
  - destruct ev; now apply (consistent_same_timer p).
  - destruct ttl; simpl; trivial. now apply consistent_setTimeRemaining.
  - now apply consistent_tick.
  - now apply consistent_idle.
Qed.

Lemma reachable_consistent (p : Page) :
  reachable username room p -> timerConsistent p.
Proof.
  induction 1 as [|p e Hr IH Ha|p0 now d p Hr0 IH0 Hr IH].
  - now apply consistent_idle.
  - now apply consistent_step.
  - apply (consistent_step (MutationFailed
             (Some (snd (onMutate username room now d p0)))) p IH).
Qed.





End NegativeValues.

(** ** The composer *)

Module ComposerFacts.
Import Composer.

Lemma trimStart_all_blank (s : jsString) :
  trimStart s = [] <-> forallb isWhiteSpace s = true.
Proof.
  induction s as [|c s IH]; simpl; [tauto|].
  destruct (isWhiteSpace c); simpl; trivial.
  split; discriminate.
Qed.

Lemma trimStart_suffix (s : jsString) :
  exists blanks, s = blanks ++ trimStart s /\ forallb isWhiteSpace blanks = true.
Proof.
  induction s as [|c s [b [Hs Hb]]]; simpl.
  - now exists [].
  - destruct (isWhiteSpace c) eqn:E.
    + exists (c :: b). simpl. rewrite E, Hb. split; trivial. now f_equal.
    + now exists [].
Qed.

Lemma forallb_rev_blank (s : jsString) :
  forallb isWhiteSpace (rev s) = forallb isWhiteSpace s.
Proof.
  induction s as [|c s IH]; simpl; trivial.
  rewrite forallb_app, IH. simpl. rewrite andb_true_r. apply andb_comm.
Qed.

Lemma rev_nil_iff {A : Type} (l : list A) : rev l = [] <-> l = [].
Proof.
  split; intros H.
  - rewrite <- (rev_involutive l), H. reflexivity.
  - now subst.
Qed.

(** [!input.trim()] holds exactly of the strings made of blanks only. *)
Lemma trim_all_blank (s : jsString) :
  truthy (trim s) = false <-> forallb isWhiteSpace s = true.
Proof.
  assert (T : forall r : jsString, truthy r = false <-> r = []).
  { intros [|c r]; simpl; split; trivial; discriminate. }
  rewrite T. unfold trim, trimEnd.
  rewrite rev_nil_iff, trimStart_all_blank, forallb_rev_blank.
  destruct (trimStart_suffix s) as [b [Hs Hb]].
  split; intros H.
  - rewrite Hs, forallb_app, Hb, H. reflexivity.
  - apply trimStart_all_blank in H. now rewrite H.
Qed.

Lemma nothingToSend_blank (s : State) :
  forallb isWhiteSpace (input s) = true -> imageData s = None ->
  nothingToSend s = true.
Proof.
  intros Hb Hi. unfold nothingToSend. rewrite Hi.
  apply trim_all_blank in Hb. now rewrite Hb.
Qed.

Lemma handleSend_cleared (s s' : State) (call : jsString * option Image) :
  handleSend s = (s', Some call) ->
  input s' = [] /\ imagePreview s' = None /\ imageData s' = None /\
  call = (input s, imageData s).
Proof.
  unfold handleSend. destruct (nothingToSend s); intros H.
  - discriminate.
  - injection H as <- <-. now repeat split.
Qed.

(** C10. With an input that is empty or made of blanks only and no image
    attached, Enter and the send button make no call on [onSend] and leave the
    composer as it is; whenever a gesture does make the call, it passes the
    input and the image, and the input, the preview and the image are cleared. *)
Theorem composer_send_guard (isPending : bool) (g : Gesture) (s : State) :
  (forallb isWhiteSpace (input s) = true -> imageData s = None ->
   react isPending g s = (s, None)) /\
  (forall s' call, react isPending g s = (s', Some call) ->
   input s' = [] /\ imagePreview s' = None /\ imageData s' = None /\
   call = (input s, imageData s)).
Proof.
  split.
  - intros Hb Hi. pose proof (nothingToSend_blank s Hb Hi) as Hn.
    destruct g as [key shiftKey|]; simpl.
    + destruct (String.eqb key "Enter" && negb shiftKey); trivial.
      unfold handleSend. now rewrite Hn.
    + unfold sendDisabled. now rewrite Hn.
  - intros s' call. destruct g as [key shiftKey|]; simpl.
    + destruct (String.eqb key "Enter" && negb shiftKey).
      * apply handleSend_cleared.
      * discriminate.
    + destruct (sendDisabled isPending s).
      * discriminate.
      * apply handleSend_cleared.
Qed.

End ComposerFacts.

(** * The properties on sample rooms *)

(** C1, as stated, fails on a cache that holds nothing yet: the snapshot is
    [undefined], [onError] skips the restore, and the message whose send
    failed stays in the list. *)
Lemma failed_send_on_unset_cache_keeps_append :
  cache initialPage = None /\
  previousMessages (snd (onMutate "alice" "r1" 2000 draft2 initialPage)) = None /\
  cache (onError (Some (snd (onMutate "alice" "r1" 2000 draft2 initialPage)))
                 (fst (onMutate "alice" "r1" 2000 draft2 initialPage)))
    = Some [mkMessage "m2" "alice" "see you" 2000 "r1" None None] /\
  cache (onError (Some (snd (onMutate "alice" "r1" 2000 draft2 initialPage)))
                 (fst (onMutate "alice" "r1" 2000 draft2 initialPage)))
    <> cache initialPage.
Proof. repeat split. discriminate. Qed.

Lemma rollback_restores_snapshot_witness :
  cache pageM1 = Some [m1] /\
  cache (onError (Some (snd (onMutate "alice" "r1" 2000 draft2 pageM1)))
                 (fst (onMutate "alice" "r1" 2000 draft2 pageM1)))
    = Some [m1] /\
  cache (onError (Some (snd (onMutate "alice" "r1" 2000 draft2 pageM1)))
                 (fst (onMutate "alice" "r1" 2000 draft2 pageM1)))
    <> cache (fst (onMutate "alice" "r1" 2000 draft2 pageM1)).
Proof.
  split; [reflexivity|].
  apply (rollback_restores_snapshot "alice" "r1" 2000 draft2 pageM1
           (fst (onMutate "alice" "r1" 2000 draft2 pageM1)) [m1]).
  reflexivity.
Defined.


Lemma optimistic_append_witness :
  messagesOf (cache initialPage) = [] /\
  exists m, cache (step "alice" "r1" (Mutate 2000 draftA) initialPage) = Some [m] /\
            id m = "a" /\ sender m = "alice" /\ text m = "hi" /\
            timestamp m = 2000 /\ imageBase64 m = None /\ imageType m = None.
Proof.
  split; [reflexivity|].
  apply (proj2 (optimistic_append "alice" "r1" 2000 draftA initialPage)).
  reflexivity.
Defined.

Lemma ids_unique_witness :
  reachable "alice" "r1" initialPage /\
  ~ In "b" (ids (cache initialPage)) /\
  countId "b"
    (messagesOf (cache (step "alice" "r1" (Realtime (ChatMessage mb))
                          (step "alice" "r1" (Mutate 2000 draftB) initialPage))))
  = 1%nat.
Proof.
  assert (Hfresh : ~ In "b" (ids (cache initialPage))) by (intros []).
  split; [apply reach_init|]. split; [exact Hfresh|].
  destruct (proj2 (ids_unique "alice" "r1" initialPage (reach_init "alice" "r1"))
              2000 draftB mb Hfresh eq_refl) as (_ & Hone & _).
  exact Hone.
Defined.

Lemma stale_read_cannot_clobber_witness :
  Forall (predatesOrLocal pageFetching)
         [FetchResolved 0 []; Realtime (ChatMessage mb)] /\
  In (optimisticMessage "alice" "r1" 2000 draftA)
     (messagesOf (cache (run "alice" "r1"
                           [FetchResolved 0 []; Realtime (ChatMessage mb)]
                           (fst (onMutate "alice" "r1" 2000 draftA pageFetching))))).
Proof.
  assert (H : Forall (predatesOrLocal pageFetching)
                     [FetchResolved 0 []; Realtime (ChatMessage mb)]).
  { repeat constructor. }
  split; [exact H|].
  apply (stale_read_cannot_clobber "alice" "r1" 2000 draftA pageFetching _ H).
Defined.

Lemma countdown_reaches_zero_once_witness :
  mounted initialPage = true /\ timeRemaining initialPage = None /\ 0 <= 5 /\
  5 <= maxSafeInteger /\
  timeRemaining (ticks 3 (ttlEffect (Some 5) initialPage)) = Some 2 /\
  pushed (ticks 4 (ttlEffect (Some 5) initialPage)) = [] /\
  pushed (ticks 5 (ttlEffect (Some 5) initialPage)) = [destroyedUrl] /\
  pushed (ticks 9 (ttlEffect (Some 5) initialPage)) = [destroyedUrl].
Proof.
  assert (H5 : 0 <= 5) by lia.
  assert (Hs : 5 <= maxSafeInteger) by (unfold maxSafeInteger; lia).
  destruct (countdown_reaches_zero_once 5 initialPage eq_refl eq_refl H5 Hs)
    as (Hdec & _ & Hbefore & Hafter & _).
  split; [reflexivity|]. split; [reflexivity|]. split; [exact H5|].
  split; [exact Hs|].
  split; [|split; [|split]].
  - apply (Hdec 3%nat). simpl. lia.
  - apply (Hbefore 4%nat). simpl. lia.
  - apply (Hafter 5%nat). simpl. lia.
  - apply (Hafter 9%nat). simpl. lia.
Defined.

Lemma destroy_navigates_like_expiry_witness :
  timeRemaining (ticks 300 (ttlEffect (Some 300) initialPage)) = Some 0 /\
  pushed (onData ChatDestroy (ttlEffect (Some 300) initialPage)) = [destroyedUrl] /\
  ticks 7 (unmount (onData ChatDestroy (ttlEffect (Some 300) initialPage)))
    = unmount (onData ChatDestroy (ttlEffect (Some 300) initialPage)).
Proof.
  destruct (destroy_navigates_like_expiry (ttlEffect (Some 300) initialPage))
    as (_ & Hp & _ & _ & _ & Hu).
  split; [vm_compute; reflexivity|]. split.
  - exact Hp.
  - apply (Hu 7%nat None).
Defined.


Lemma composer_send_guard_witness :
  forallb Composer.isWhiteSpace (Composer.input blankComposer) = true /\
  Composer.imageData blankComposer = None /\
  Composer.react false (Composer.KeyDown "Enter" false) blankComposer
    = (blankComposer, None) /\
  Composer.input
    (fst (Composer.react false Composer.ClickSend wordComposer)) = [].
Proof.
  split; [reflexivity|]. split; [reflexivity|]. split.
  - apply (proj1 (ComposerFacts.composer_send_guard false
                    (Composer.KeyDown "Enter" false) blankComposer));
      reflexivity.
  - apply (proj2 (ComposerFacts.composer_send_guard false Composer.ClickSend
                    wordComposer)
             (fst (Composer.react false Composer.ClickSend wordComposer))
             (Composer.input wordComposer, Composer.imageData wordComposer)).
    reflexivity.
Defined.

(** ** What the assumptions are for *)

(** [onMutate] appends without looking for the id: a draft whose id the
    cache already held would be listed twice, which is why the invariant asks
    for the ids of drafts to be new. *)
Example append_does_not_deduplicate :
  countId "m1"
    (messagesOf (cache (step "alice" "r1"
                          (Mutate 2000 (mkDraft "again" None None "m1")) pageM1)))
  = 2%nat.
Proof. reflexivity. Qed.

(** The rollback writes the snapshot over the whole entry: a realtime message
    merged while the request was in flight goes with the failed one. *)
Example rollback_drops_interleaved_realtime :
  cache (run "alice" "r1"
           [Mutate 2000 draft2;
            Realtime (ChatMessage mb);
            MutationFailed
              (Some (snd (onMutate "alice" "r1" 2000 draft2 pageM1)))]
           pageM1)
  = Some [m1].
Proof. reflexivity. Qed.

(** The answer to a read issued after the append does replace the list. *)
Example later_read_replaces_list :
  cache (run "alice" "r1"
           [Mutate 2000 draftA; MutationSucceeded; FetchResolved 1 [m1]]
           pageFetching)
  = Some [m1].
Proof. reflexivity. Qed.

(** End to end: a room with TTL 2 and no messages, one send that succeeds,
    two seconds. *)
Example room_r1_scenario :
  let p := run "alice" "r1"
             [FetchStarted; FetchResolved 0 []; TtlData (Some 2);
              Mutate 2000 (mkDraft "hi" None None "x")]
             initialPage in
  cache p = Some [mkMessage "x" "alice" "hi" 2000 "r1" None None] /\
  pushed (run "alice" "r1" [MutationSucceeded; Tick; Tick; Tick] p)
    = [destroyedUrl].
Proof. split; reflexivity. Qed.

(** * Further properties of the room view *)

(** ** Deliveries in any order, any number of times *)

Lemma In_ids_merge (x : string) (m : Message) (s : QueryData) :
  In x (ids (mergeMessage m s)) <-> In x (ids s) \/ x = id m.
Proof.
  unfold ids. destruct s as [l|]; simpl.
  - destruct (hasId (id m) l) eqn:E; simpl.
    + apply hasId_In_ids in E. split; [tauto|]. intros [H| ->]; trivial.
    + rewrite map_app, in_app_iff. simpl. intuition congruence.
  - intuition congruence.
Qed.

Lemma In_ids_deliver (x : string) (ms : list Message) : forall s,
  In x (ids (deliver ms s)) <-> In x (ids s) \/ In x (map id ms).
Proof.
  unfold deliver. induction ms as [|m ms IH]; intros s; simpl.
  - tauto.
  - rewrite IH, In_ids_merge. intuition congruence.
Qed.

Lemma NoDup_ids_deliver (ms : list Message) : forall s,
  NoDup (ids s) -> NoDup (ids (deliver ms s)).
Proof.
  unfold deliver. induction ms as [|m ms IH]; intros s Hs; simpl; trivial.
  apply IH. now apply NoDup_ids_merge.
Qed.

Lemma cache_run_realtime (username room : string) (ms : list Message) :
  forall p,
  cache (run username room (map (fun m => Realtime (ChatMessage m)) ms) p)
  = deliver ms (cache p).
Proof.
  unfold run, deliver.
  induction ms as [|m ms IH]; intros p; simpl; [reflexivity|apply IH].
Qed.

(** X1. Two runs of realtime deliveries that bring the same ids, in whatever
    order and however often each, leave caches that list the same ids, each
    once. *)
Theorem delivery_order_and_repeats_irrelevant
    (username room : string) (p : Page) (ms ms' : list Message) :
  NoDup (ids (cache p)) ->
  (forall x, In x (map id ms) <-> In x (map id ms')) ->
  Permutation
    (ids (cache (run username room
                   (map (fun m => Realtime (ChatMessage m)) ms) p)))
    (ids (cache (run username room
                   (map (fun m => Realtime (ChatMessage m)) ms') p))).
Proof.
  intros Hn Hsame. rewrite !cache_run_realtime.
  apply NoDup_Permutation.
  - now apply NoDup_ids_deliver.
  - now apply NoDup_ids_deliver.
  - intros x. rewrite !In_ids_deliver, Hsame. tauto.
Qed.

(** ** What is listed stays listed *)

Lemma step_appends (username room : string) (e : Event) (p : Page) :
  appendsOnly e = true ->
  exists added,
    messagesOf (cache (step username room e p)) = messagesOf (cache p) ++ added.
Proof.
  intros He. destruct e; cbn [step]; try discriminate He;
    try (exists []; rewrite app_nil_r; reflexivity).
  - exists [optimisticMessage username room now d].
    now rewrite cache_onMutate.
  - destruct ev as [m|]; cbn [onData].
    + rewrite cache_withClient_set. destruct (cache p) as [l|]; simpl.
      * destruct (hasId (id m) l); simpl; [exists []|exists [m]];
          now rewrite ?app_nil_r.
      * now exists [m].
    + exists []. now rewrite app_nil_r.
  - exists []. unfold cache. now rewrite client_ttlEffect, app_nil_r.
  - exists []. unfold cache. now rewrite client_tick, app_nil_r.
Qed.

Lemma run_appends (username room : string) (evs : list Event) : forall p,
  forallb appendsOnly evs = true ->
  exists added,
    messagesOf (cache (run username room evs p)) = messagesOf (cache p) ++ added.
Proof.
  unfold run. induction evs as [|e evs IH]; intros p Hall; simpl.
  - exists []. now rewrite app_nil_r.
  - simpl in Hall. apply andb_true_iff in Hall as [He Hall].
    destruct (IH (step username room e p) Hall) as [a2 H2].
    destruct (step_appends username room e p He) as [a1 H1].
    exists (a1 ++ a2). now rewrite H2, H1, app_assoc.
Qed.

(** X2. Through every sequence of callbacks that holds no answer to a server
    read and no rollback (realtime events, optimistic sends, successes,
    timer events), the message list only grows at its tail: the entries
    listed before are all there, in the same places, unchanged. *)
Theorem listed_stays_listed
    (username room : string) (evs : list Event) (p : Page) :
  forallb appendsOnly evs = true ->
  exists added,
    messagesOf (cache (run username room evs p)) = messagesOf (cache p) ++ added.
Proof. apply run_appends. Qed.

Lemma lookupId_app (x : string) (m : Message) (l added : list Message) :
  lookupId x l = Some m -> lookupId x (l ++ added) = Some m.
Proof.
  unfold lookupId. induction l as [|a l IH]; simpl; [discriminate|].
  destruct (String.eqb (id a) x); trivial.
Qed.

(** X3. The first copy wins: the record found under an id is still the one
    found under it after any realtime deliveries and optimistic sends, so a
    later copy under the same id (the server's, with its own timestamp) never
    replaces the one already listed. *)
Theorem first_copy_wins
    (username room : string) (evs : list Event) (p : Page)
    (x : string) (m : Message) :
  forallb appendsOnly evs = true ->
  lookupId x (messagesOf (cache p)) = Some m ->
  lookupId x (messagesOf (cache (run username room evs p))) = Some m.
Proof.
  intros Hall Hm.
  destruct (run_appends username room evs p Hall) as [added ->].
  now apply lookupId_app.
Qed.

(** ** A send that fails, on the whole page *)

(** X4. A send that fails right away leaves the page as it was, apart from
    the reads it cancelled, exactly when the cache held a list; on a cache
    that held nothing it leaves the one-element list of the failed message. *)
Theorem failed_send_round_trip
    (username room : string) (now : Z) (d : Draft) (p : Page) :
  let r := onMutate username room now d p in
  (forall l, cache p = Some l ->
     onError (Some (snd r)) (fst r) = withClient QueryClient.cancelQueries p) /\
  (cache p = None ->
     onError (Some (snd r)) (fst r) = fst r /\
     cache (fst r) = Some [optimisticMessage username room now d]) /\
  (onError (Some (snd r)) (fst r) = withClient QueryClient.cancelQueries p
     <-> cache p <> None).
Proof.
  assert (Hsome : forall l, cache p = Some l ->
            onError (Some (snd (onMutate username room now d p)))
                    (fst (onMutate username room now d p))
            = withClient QueryClient.cancelQueries p).
  { intros l Hl. unfold onError. rewrite snapshot_onMutate, Hl.
    unfold onMutate, withClient, QueryClient.setQueryData,
      QueryClient.cancelQueries; simpl.
    unfold cache in Hl. now rewrite Hl. }
  assert (Hnone : cache p = None ->
            onError (Some (snd (onMutate username room now d p)))
                    (fst (onMutate username room now d p))
            = fst (onMutate username room now d p)).
  { intros Hn. unfold onError. now rewrite snapshot_onMutate, Hn. }
  intros r. split; [exact Hsome|]. split.
  - intros Hn. split; [now apply Hnone|].
    unfold r. now rewrite cache_onMutate, Hn.
  - split.
    + intros H Hn. unfold r in H. rewrite (Hnone Hn) in H.
      apply (f_equal cache) in H. rewrite cache_onMutate, Hn in H.
      unfold cache in H, Hn. simpl in H. rewrite Hn in H. discriminate H.
    + intros Hne. destruct (cache p) as [l|] eqn:E; [|congruence].
      now apply (Hsome l).
Qed.

(** ** The countdown, from any state the view can reach *)

(** X5. Whenever an interval is live the view is mounted and holds a positive
    value [t]; when [t] is a safe integer (at most [2^53 - 1]), [k] seconds
    from there take the value to [max 0 (t - k)], the interval stays live
    until the value is 0, and the countdown navigates once, at the second the
    value reaches 0, never before and never again. *)
Theorem countdown_from_any_state
    (username room : string) (p : Page) :
  reachable username room p -> interval p = true ->
  exists t,
    timeRemaining p = Some t /\ 0 < t /\ mounted p = true /\
    (t <= maxSafeInteger ->
     forall k,
       timeRemaining (ticks k p) = Some (Z.max 0 (t - Z.of_nat k)) /\
       interval (ticks k p) = negb (t <=? Z.of_nat k) /\
       pushed (ticks k p) =
         pushed p ++ (if t <=? Z.of_nat k then [destroyedUrl] else [])).
Proof.
  intros Hr Hi.
  destruct (reachable_consistent username room p Hr Hi) as [Hm [t [Ht Hpos]]].
  exists t. split; [exact Ht|]. split; [exact Hpos|]. split; [exact Hm|].
  intros Hs k.
  destruct p as [c v i ps m]; simpl in *; subst.
  destruct (Z.leb_spec t (Z.of_nat k)) as [Hk|Hk].
  - replace k with (Z.to_nat t + (k - Z.to_nat t))%nat by lia.
    rewrite ticks_add, ticks_running by lia.
    rewrite Z2Nat.id, Z.eqb_refl by lia.
    rewrite ticks_idle by reflexivity. simpl.
    split; [f_equal; lia|]. now split.
  - rewrite ticks_running by lia.
    destruct (Z.eqb_spec (Z.of_nat k) t); [lia|]. simpl.
    split; [f_equal; lia|]. split; [reflexivity|]. now rewrite app_nil_r.
Qed.

(** ** A closed view *)

Lemma closed_step (username room : string) (e : Event) (p : Page) :
  mounted p = false -> interval p = false ->
  mounted (step username room e p) = false /\
  interval (step username room e p) = false /\
  timeRemaining (step username room e p) = timeRemaining p /\
  pushed (step username room e p) =
    pushed p ++ repeat destroyedUrl (destroySignals [e]).
Proof.
  intros Hm Hi.
  assert (Hset : forall v, setTimeRemaining v p = p).
  { intros v. unfold setTimeRemaining. now rewrite Hm. }
  destruct e; cbn [step]; unfold destroySignals; simpl;
    rewrite ?app_nil_r; try (now repeat split).
  - destruct context as [[[l|]]|]; now repeat split.
  - destruct ev; simpl; rewrite ?app_nil_r; now repeat split.
  - destruct ttl; simpl; rewrite ?Hset; now repeat split.
  - rewrite tick_idle by trivial. now repeat split.
Qed.

(** X6. Once the view is closed nothing moves the countdown any more: through
    every later sequence of callbacks the view stays unmounted, no interval is
    live, the value is the one held at closing, and the only navigations are
    those of [chat.destroy] events, one each. *)
Theorem closed_view_is_still
    (username room : string) (p : Page) (evs : list Event) :
  reachable username room p -> mounted p = false ->
  mounted (run username room evs p) = false /\
  interval (run username room evs p) = false /\
  timeRemaining (run username room evs p) = timeRemaining p /\
  pushed (run username room evs p) =
    pushed p ++ repeat destroyedUrl (destroySignals evs).
Proof.
  intros Hr Hm.
  assert (Hi : interval p = false).
  { destruct (interval p) eqn:E; trivial.
    destruct (reachable_consistent username room p Hr E) as [Hm' _].
    congruence. }
  clear Hr. revert p Hm Hi. unfold run.
  induction evs as [|e evs IH]; intros p Hm Hi; simpl.
  - unfold destroySignals. simpl. now rewrite app_nil_r.
  - destruct (closed_step username room e p Hm Hi) as (Hm1 & Hi1 & Ht1 & Hp1).
    destruct (IH _ Hm1 Hi1) as (Hm2 & Hi2 & Ht2 & Hp2).
    repeat split; trivial; [congruence|].
    rewrite Hp2, Hp1, <- app_assoc. f_equal.
    unfold destroySignals. simpl.
    destruct e as [| | | | | |[|]| | |]; simpl; rewrite ?app_nil_r; trivial.
Qed.

(** ** The text of the timer *)

Lemma numberToString_inj (a b : Z) :
  numberToString a = numberToString b -> a = b.
Proof.
  unfold numberToString. intros H.
  assert (N : forall z, NilZero.int_of_string (NilZero.string_of_int (Z.to_int z))
                        = Some (Z.to_int z)).
  { intros z. apply NilZero.isi; destruct z as [|q|q]; simpl;
      try discriminate; intros E; injection E as E;
      now apply Unsigned.to_uint_nonnil in E. }
  apply DecimalZ.to_int_inj.
  pose proof (N a) as Ha. rewrite H, N in Ha. now injection Ha.
Qed.

Lemma countChar_append (c : ascii) (u v : string) :
  countChar c (u ++ v)%string = (countChar c u + countChar c v)%nat.
Proof.
  unfold countChar. induction u as [|x u IH]; simpl; trivial.
  destruct (Ascii.eqb c x); simpl; now rewrite IH.
Qed.

Lemma uint_no_colon (d : Decimal.uint) :
  countChar ":" (NilEmpty.string_of_uint d) = 0%nat.
Proof. induction d; simpl; trivial. Qed.

Lemma numberToString_no_colon (z : Z) :
  countChar ":" (numberToString z) = 0%nat.
Proof.
  unfold numberToString.
  assert (U : forall d, countChar ":" (NilZero.string_of_uint d) = 0%nat).
  { intros d. destruct d; try apply uint_no_colon. reflexivity. }
  destruct (Z.to_int z) as [d|d]; simpl.
  - apply U.
  - change (countChar ":" (String "-" (NilZero.string_of_uint d)))
      with (countChar ":" (NilZero.string_of_uint d)). apply U.
Qed.

Lemma countChar_cons (c x : ascii) (s : string) :
  countChar c (String x s) =
  if Ascii.eqb c x then S (countChar c s) else countChar c s.
Proof. unfold countChar. simpl. now destruct (Ascii.eqb c x). Qed.

(** The text before and after the first colon. *)
Lemma split_at_colon (u u' v v' : string) :
  countChar ":" u = 0%nat -> countChar ":" u' = 0%nat ->
  (u ++ String ":" v)%string = (u' ++ String ":" v')%string ->
  u = u' /\ v = v'.
Proof.
  revert u'. induction u as [|x u IH]; intros [|x' u'] Hu Hu' H; simpl in H.
  - injection H as H. now split.
  - injection H as Hx H. subst x'.
    rewrite countChar_cons, Ascii.eqb_refl in Hu'. discriminate Hu'.
  - injection H as Hx H. subst x.
    rewrite countChar_cons, Ascii.eqb_refl in Hu. discriminate Hu.
  - injection H as Hx H. subst x'.
    rewrite countChar_cons in Hu, Hu'.
    destruct (Ascii.eqb ":" x); [discriminate Hu|].
    destruct (IH u' Hu Hu' H) as [-> ->]. now split.
Qed.

(** A check over the integers from [lo] on, [n] of them. *)
Lemma checked_range (P : Z -> bool) (lo : Z) (n : nat) :
  forallb P (map (fun k => lo + Z.of_nat k) (seq 0 n)) = true ->
  forall r, lo <= r < lo + Z.of_nat n -> P r = true.
Proof.
  intros H r Hr. rewrite forallb_forall in H. apply H.
  apply in_map_iff. exists (Z.to_nat (r - lo)). split; [lia|].
  apply in_seq. lia.
Qed.

Lemma seconds_field_nonneg (r : Z) :
  0 <= r < 60 -> padStart 2 "0" (numberToString r) = twoDigits r.
Proof.
  intros Hr. apply String.eqb_eq.
  apply (checked_range
           (fun r => String.eqb (padStart 2 "0" (numberToString r)) (twoDigits r))
           0 60); [vm_compute; reflexivity|lia].
Qed.

Lemma seconds_field_negative (r : Z) :
  -60 < r < 0 -> padStart 2 "0" (numberToString r) = numberToString r.
Proof.
  intros Hr. apply String.eqb_eq.
  apply (checked_range
           (fun r => String.eqb (padStart 2 "0" (numberToString r))
                                (numberToString r))
           (-59) 59); [vm_compute; reflexivity|lia].
Qed.

Lemma seconds_field_inj (r r' : Z) :
  -60 < r < 60 -> -60 < r' < 60 ->
  padStart 2 "0" (numberToString r) = padStart 2 "0" (numberToString r') ->
  r = r'.
Proof.
  intros Hr Hr' H. apply Z.eqb_eq.
  assert (Hall : forallb
            (fun b => implb (String.eqb (padStart 2 "0" (numberToString r))
                                        (padStart 2 "0" (numberToString b)))
                            (r =? b))
            (map (fun k => -59 + Z.of_nat k) (seq 0 119)) = true).
  { apply (checked_range
             (fun a => forallb
                (fun b => implb (String.eqb (padStart 2 "0" (numberToString a))
                                            (padStart 2 "0" (numberToString b)))
                                (a =? b))
                (map (fun k => -59 + Z.of_nat k) (seq 0 119)))
             (-59) 119); [vm_compute; reflexivity|lia]. }
  assert (Himp := checked_range _ (-59) 119 Hall r' ltac:(lia)).
  cbv beta in Himp. apply String.eqb_eq in H. now rewrite H in Himp.
Qed.

(** X7. For a safe integer that is not negative (at most [2^53 - 1]) the
    timer reads the minutes in decimal, a colon, and the seconds left over as
    exactly two digits. *)
Theorem formatTimeRemaining_nonneg (seconds : Z) :
  0 <= seconds -> seconds <= maxSafeInteger ->
  formatTimeRemaining seconds =
  (numberToString (seconds / 60) ++ ":" ++ twoDigits (seconds mod 60))%string.
Proof.
  intros H _. unfold formatTimeRemaining.
  rewrite Z.rem_mod_nonneg by lia.
  rewrite seconds_field_nonneg; trivial.
  apply Z.mod_pos_bound. lia.
Qed.

(** X8. For a negative safe integer (at least [-(2^53 - 1)]) the minutes are
    rounded down while the seconds keep the sign of the value: unless the
    value is a multiple of 60 the seconds field is a negative number, not
    padded, and the two fields read as minutes and seconds add up to the value
    less 60 (so -1 reads "-1:-1"). *)
Theorem formatTimeRemaining_negative (seconds : Z) :
  seconds < 0 -> - maxSafeInteger <= seconds ->
  (Z.rem seconds 60 = 0 ->
     formatTimeRemaining seconds
     = (numberToString (seconds / 60) ++ ":00")%string) /\
  (Z.rem seconds 60 <> 0 ->
     formatTimeRemaining seconds =
       (numberToString (seconds / 60) ++ ":"
        ++ numberToString (Z.rem seconds 60))%string
     /\ Z.rem seconds 60 < 0
     /\ 60 * (seconds / 60) + Z.rem seconds 60 = seconds - 60).
Proof.
  intros Hneg _.
  pose proof (Z.rem_bound_abs seconds 60 ltac:(lia)) as Hb.
  pose proof (Z.quot_rem' seconds 60) as Hq.
  pose proof (Z.rem_sign_nz seconds 60 ltac:(lia)) as Hs.
  pose proof (Z.div_mod seconds 60 ltac:(lia)) as Hd.
  pose proof (Z.mod_pos_bound seconds 60 ltac:(lia)) as Hm.
  split; intros Hr; unfold formatTimeRemaining.
  - now rewrite Hr.
  - specialize (Hs Hr).
    assert (Hlt : Z.rem seconds 60 < 0).
    { lia. }
    rewrite seconds_field_negative by lia.
    repeat split; trivial. lia.
Qed.

(** X9. Two different safe integers (between [-(2^53 - 1)] and [2^53 - 1])
    never read the same on the timer. *)
Theorem formatTimeRemaining_inj (a b : Z) :
  Z.abs a <= maxSafeInteger -> Z.abs b <= maxSafeInteger ->
  formatTimeRemaining a = formatTimeRemaining b -> a = b.
Proof.
  unfold formatTimeRemaining. intros _ _ H.
  apply split_at_colon in H; try apply numberToString_no_colon.
  destruct H as [Hm Hs].
  apply numberToString_inj in Hm.
  pose proof (Z.rem_bound_abs a 60 ltac:(lia)) as Ha.
  pose proof (Z.rem_bound_abs b 60 ltac:(lia)) as Hb.
  apply seconds_field_inj in Hs; try lia.
  pose proof (Z.quot_rem' a 60). pose proof (Z.quot_rem' b 60).
  pose proof (Z.div_mod a 60 ltac:(lia)). pose proof (Z.div_mod b 60 ltac:(lia)).
  pose proof (Z.mod_pos_bound a 60 ltac:(lia)).
  pose proof (Z.mod_pos_bound b 60 ltac:(lia)).
  lia.
Qed.

(** ** Names over the bubbles *)

Lemma split_nonempty (sep : ascii) (s : string) : split sep s <> [].
Proof.
  destruct s as [|c r]; simpl; [discriminate|].
  destruct (Ascii.eqb c sep); [discriminate|].
  destruct (split sep r); discriminate.
Qed.

Lemma join_cons (sep h : string) (t : list string) :
  t <> [] -> join sep (h :: t) = (h ++ sep ++ join sep t)%string.
Proof. destruct t; [congruence|reflexivity]. Qed.

Lemma join_push (sep : string) (c : ascii) (h : string) (t : list string) :
  join sep (String c h :: t) = String c (join sep (h :: t)).
Proof. destruct t; reflexivity. Qed.

(** Splitting and joining again gives the string back. *)
Lemma join_split (sep : ascii) (s : string) :
  join (String sep "") (split sep s) = s.
Proof.
  induction s as [|c r IH]; simpl; trivial.
  destruct (Ascii.eqb_spec c sep) as [->|Hne].
  - rewrite join_cons by apply split_nonempty. simpl. now rewrite IH.
  - destruct (split sep r) as [|h t] eqn:E.
    + now apply split_nonempty in E.
    + rewrite join_push. now rewrite IH.
Qed.

Lemma split_length (sep : ascii) (s : string) :
  List.length (split sep s) = S (countChar sep s).
Proof.
  induction s as [|c r IH]; simpl; trivial.
  rewrite countChar_cons, (Ascii.eqb_sym sep c).
  destruct (Ascii.eqb c sep); simpl.
  - now rewrite IH.
  - destruct (split sep r) as [|h t]; simpl in *; trivial. discriminate IH.
Qed.

Lemma split_parts (sep : ascii) (s : string) :
  Forall (fun part => countChar sep part = 0%nat) (split sep s).
Proof.
  induction s as [|c r IH]; simpl.
  - now repeat constructor.
  - destruct (Ascii.eqb c sep) eqn:E.
    + constructor; trivial.
    + destruct (split sep r) as [|h t].
      * constructor; [|constructor].
        now rewrite countChar_cons, Ascii.eqb_sym, E.
      * apply Forall_cons_iff in IH as [Hh Ht]. constructor; trivial.
        now rewrite countChar_cons, Ascii.eqb_sym, E.
Qed.

(** X10. Over the messages of others the view shows a beginning of the
    sender's name: the whole name when it has at most one hyphen, and
    otherwise the text before the second hyphen (so exactly one hyphen is
    shown); over the user's own messages it shows "YOU". *)
Theorem senderLabel_is_name_up_to_second_hyphen (username : string) (m : Message) :
  (sender m = username -> senderLabel username m = "YOU") /\
  (sender m <> username ->
     (exists rest, sender m = (senderLabel username m ++ rest)%string /\
                   (rest = "" \/ exists rest', rest = String "-" rest')) /\
     ((countChar "-" (sender m) <= 1)%nat -> senderLabel username m = sender m) /\
     ((2 <= countChar "-" (sender m))%nat ->
        countChar "-" (senderLabel username m) = 1%nat)).
Proof.
  unfold senderLabel. split.
  - intros ->. now rewrite String.eqb_refl.
  - intros Hne. apply String.eqb_neq in Hne. rewrite Hne.
    pose proof (join_split "-" (sender m)) as Hj.
    pose proof (split_length "-" (sender m)) as Hl.
    pose proof (split_parts "-" (sender m)) as Hp.
    destruct (split "-" (sender m)) as [|a [|b [|c rest]]]; simpl in Hl.
    + discriminate Hl.
    + simpl. split; [|split]; [| trivial | lia].
      exists "". split; [|now left]. simpl in Hj.
      rewrite <- Hj. clear. induction a; simpl; congruence.
    + simpl firstn. split; [|split]; [| trivial | lia].
      exists "". split; [|now left]. rewrite Hj. clear.
      induction (sender m); simpl; congruence.
    + simpl firstn. split; [|split].
      * exists (String "-" (join "-" (c :: rest))). split; [|right; eauto].
        rewrite <- Hj. rewrite join_cons by discriminate.
        rewrite (join_cons "-" b) by discriminate.
        change (join "-" [a; b]) with (a ++ "-" ++ b)%string.
        clear. induction a as [|x a IH]; simpl.
        -- reflexivity.
        -- f_equal. exact IH.
      * lia.
      * intros _. change (join "-" [a; b]) with (a ++ String "-" b)%string.
        apply Forall_cons_iff in Hp as [Ha Hp].
        apply Forall_cons_iff in Hp as [Hb _].
        now rewrite countChar_append, countChar_cons, Ha, Hb.
Qed.

(** X11. The initial drawn in an avatar is never the empty string, as long as
    putting a single character in upper case never gives the empty string. *)
Theorem getInitials_never_empty (toUpperCase : string -> string) (name : string) :
  (forall c, toUpperCase (String c "") <> "") ->
  getInitials toUpperCase name <> "".
Proof.
  intros Hup. unfold getInitials.
  destruct (2 <=? List.length (split "-" name))%nat.
  - destruct (nth_error (split "-" name) 1) as [[|c r]|]; simpl; apply Hup.
  - destruct name as [|c r]; simpl; [discriminate|].
    destruct (toUpperCase (String c "")) eqn:E; simpl; discriminate.
Qed.

(** ** From the composer to the list *)

(** X12. The message appended for a text and an image handed over by the
    composer sits at the tail under the given id; it carries either both image
    fields or neither; its text is the text handed over when there is one, the
    camera sign when there is only an image, and is empty only when there is
    neither text nor image. *)
Theorem sent_message_fields
    (username room uuid text0 : string) (image : option Composer.Image)
    (now : Z) (p : Page) :
  let m := optimisticMessage username room now (onSend uuid text0 image) in
  messagesOf (cache (step username room (Mutate now (onSend uuid text0 image)) p))
    = messagesOf (cache p) ++ [m] /\
  id m = uuid /\
  (imageBase64 m = None <-> imageType m = None) /\
  (imageBase64 m = None <-> image = None) /\
  (text0 <> "" -> text m = text0) /\
  (text0 = "" -> image <> None -> text m = cameraText) /\
  (text m = "" <-> text0 = "" /\ image = None).
Proof.
  intros m. split; [|split; [reflexivity|]].
  - change (step username room (Mutate now (onSend uuid text0 image)) p)
      with (fst (onMutate username room now (onSend uuid text0 image) p)).
    now rewrite cache_onMutate.
  - unfold m, cameraText; simpl.
    destruct image as [img|]; destruct text0 as [|c r]; simpl;
      repeat split; intros; try tauto; try congruence; try discriminate;
      match goal with
      | H : _ /\ _ |- _ => destruct H; congruence
      end.
Qed.

Lemma showsText_false_iff (m : Message) :
  showsText m = false <-> text m = "" \/ text m = cameraText.
Proof.
  unfold showsText. destruct (text m) as [|c r] eqn:E.
  - split; [now left|reflexivity].
  - destruct (String.eqb_spec (String c r) cameraText) as [H|H]; simpl.
    + split; [now right|reflexivity].
    + split; [discriminate|]. intros [H'|H']; [discriminate H'|contradiction].
Qed.

Lemma showsImage_false_iff (m : Message) :
  showsImage m = false <-> imageBase64 m = None \/ imageBase64 m = Some "".
Proof.
  unfold showsImage. destruct (imageBase64 m) as [[|c r]|].
  - split; [now right|reflexivity].
  - split; [discriminate|]. intros [H|H]; discriminate H.
  - split; [now left|reflexivity].
Qed.

(** X13. A bubble shows neither a paragraph nor a picture exactly when the
    text handed over is empty or the camera sign itself and there is no image
    or an image with an empty payload. *)
Theorem bubble_is_blank_iff
    (username room uuid text0 : string) (image : option Composer.Image) (now : Z) :
  let m := optimisticMessage username room now (onSend uuid text0 image) in
  (showsText m = false /\ showsImage m = false) <->
  (text0 = "" \/ text0 = cameraText) /\
  (image = None \/ exists img, image = Some img /\ Composer.base64 img = "").
Proof.
  intros m. rewrite showsText_false_iff, showsImage_false_iff.
  assert (Ht : text m = "" \/ text m = cameraText
               <-> text0 = "" \/ text0 = cameraText).
  { unfold m; simpl. destruct text0 as [|c r].
    - destruct image; split; intros _; [now left|now right|now left|now left].
    - tauto. }
  assert (Hi : imageBase64 m = None \/ imageBase64 m = Some ""
               <-> image = None \/
                   exists img, image = Some img /\ Composer.base64 img = "").
  { unfold m; simpl. destruct image as [img|]; simpl.
    - split.
      + intros [H|H]; [discriminate H|]. injection H as H. right. now exists img.
      + intros [H|[img' [H1 H2]]]; [discriminate H|].
        injection H1 as <-. right. now rewrite H2.
    - split; intros _; now left. }
  now rewrite Ht, Hi.
Qed.

(** ** The composer, beyond the guard *)

Lemma some_not_blank (l : list N) :
  existsb (fun c => negb (Composer.isWhiteSpace c)) l
  = negb (forallb Composer.isWhiteSpace l).
Proof.
  induction l as [|c l IH]; simpl; trivial.
  rewrite IH. now destruct (Composer.isWhiteSpace c).
Qed.

Lemma nothingToSend_false_iff (s : Composer.State) :
  Composer.nothingToSend s = false <->
  existsb (fun c => negb (Composer.isWhiteSpace c)) (Composer.input s) = true \/
  Composer.imageData s <> None.
Proof.
  unfold Composer.nothingToSend.
  assert (T : Composer.truthy (Composer.trim (Composer.input s)) = true <->
              existsb (fun c => negb (Composer.isWhiteSpace c)) (Composer.input s)
              = true).
  { pose proof (ComposerFacts.trim_all_blank (Composer.input s)) as H.
    rewrite some_not_blank. destruct H as [H1 H2].
    destruct (Composer.truthy (Composer.trim (Composer.input s)));
      destruct (forallb Composer.isWhiteSpace (Composer.input s));
      simpl; split; intros X; trivial; try discriminate X;
      try discriminate (H2 eq_refl); try exact (H1 eq_refl). }
  destruct (Composer.imageData s) as [img|].
  - rewrite andb_false_r. split; [right; discriminate|reflexivity].
  - rewrite andb_true_r, negb_false_iff, T.
    split; [now left|]. intros [H|H]; [trivial|congruence].
Qed.

Lemma handleSend_sends_iff (s : Composer.State) :
  snd (Composer.handleSend s) <> None <-> Composer.nothingToSend s = false.
Proof.
  unfold Composer.handleSend. destruct (Composer.nothingToSend s); simpl.
  - split; [congruence|discriminate].
  - split; [reflexivity|discriminate].
Qed.

(** X14. A gesture calls [onSend] exactly when there is something to send (a
    character of the input that is not blank, or an image) and the gesture is
    Enter without Shift, or a click on the button while no send is pending:
    a pending send holds back the button, not the Enter key. *)
Theorem gesture_sends_iff
    (isPending : bool) (g : Composer.Gesture) (s : Composer.State) :
  snd (Composer.react isPending g s) <> None <->
  (existsb (fun c => negb (Composer.isWhiteSpace c)) (Composer.input s) = true \/
   Composer.imageData s <> None) /\
  (isEnter g = true \/ (g = Composer.ClickSend /\ isPending = false)).
Proof.
  rewrite <- nothingToSend_false_iff.
  destruct g as [key shiftKey|]; simpl.
  - destruct (String.eqb key "Enter" && negb shiftKey).
    + rewrite handleSend_sends_iff. split; [intros H; split; auto|tauto].
    + simpl. split; [congruence|]. intros [_ [H|[H _]]]; discriminate H.
  - unfold Composer.sendDisabled.
    destruct (Composer.nothingToSend s) eqn:En; simpl.
    + split; [congruence|]. intros [H _]. discriminate H.
    + destruct isPending; simpl.
      * split; [congruence|]. intros [_ [H|[_ H]]]; discriminate H.
      * pose proof (handleSend_sends_iff s) as Hs. rewrite En in Hs.
        split; [intros _; split; auto|]. intros _. now apply Hs.
Qed.

Lemma jpeg_handleImageSelect (f : Composer.File) (s : Composer.State) :
  Composer.imageData (Composer.handleImageSelect f s) = Composer.imageData s.
Proof.
  unfold Composer.handleImageSelect.
  now destruct (negb (String.prefix "image/" (Composer.fileType f))).
Qed.

Lemma jpeg_handlePaste (items : list Composer.ClipboardItem) (s : Composer.State) :
  Composer.imageData (Composer.handlePaste items s) = Composer.imageData s.
Proof.
  induction items as [|item rest IH]; simpl; trivial.
  destruct (String.prefix "image/" (Composer.itemType item)); trivial.
  destruct (Composer.getAsFile item); trivial. apply jpeg_handleImageSelect.
Qed.

Lemma jpeg_react (isPending : bool) (g : Composer.Gesture) (s : Composer.State) :
  Composer.imageData (fst (Composer.react isPending g s)) = Composer.imageData s \/
  Composer.imageData (fst (Composer.react isPending g s)) = None.
Proof.
  assert (H : Composer.imageData (fst (Composer.handleSend s)) = Composer.imageData s \/
              Composer.imageData (fst (Composer.handleSend s)) = None).
  { unfold Composer.handleSend. destruct (Composer.nothingToSend s); simpl; auto. }
  destruct g as [key shiftKey|]; simpl.
  - destruct (String.eqb key "Enter" && negb shiftKey); simpl; auto.
  - destruct (Composer.sendDisabled isPending s); simpl; auto.
Qed.

Lemma reachable_jpeg (s : Composer.State) :
  Composer.reachable s ->
  forall img, Composer.imageData s = Some img -> Composer.type img = "image/jpeg".
Proof.
  induction 1 as [|s isPending a Hr IH]; intros img Himg.
  - discriminate Himg.
  - destruct a; simpl in Himg.
    + now apply IH.
    + unfold Composer.handleFileChange in Himg. destruct files as [|f files].
      * now apply IH.
      * rewrite jpeg_handleImageSelect in Himg. now apply IH.
    + rewrite jpeg_handlePaste in Himg. now apply IH.
    + now injection Himg as <-.
    + discriminate Himg.
    + destruct (jpeg_react isPending g s) as [E|E]; rewrite E in Himg.
      * now apply IH.
      * discriminate Himg.
Qed.

(** X15. Whatever is typed, chosen, pasted, loaded, removed or sent, an image
    the composer holds has the type "image/jpeg", and so has every image it
    hands to [onSend], whatever the type of the file it came from. *)
Theorem composer_images_are_jpeg
    (s : Composer.State) (isPending : bool) (g : Composer.Gesture) :
  Composer.reachable s ->
  (forall img, Composer.imageData s = Some img ->
     Composer.type img = "image/jpeg") /\
  (forall s' v img,
     Composer.react isPending g s = (s', Some (v, Some img)) ->
     Composer.type img = "image/jpeg").
Proof.
  intros Hr. split; [now apply reachable_jpeg|].
  intros s' v img H.
  assert (Hc : forall s'' call, Composer.handleSend s = (s'', Some call) ->
                 call = (Composer.input s, Composer.imageData s)).
  { intros s'' call Hs. now apply ComposerFacts.handleSend_cleared in Hs. }
  assert (Himg : Composer.imageData s = Some img).
  { destruct g as [key shiftKey|]; simpl in H.
    - destruct (String.eqb key "Enter" && negb shiftKey); [|discriminate H].
      apply Hc in H. now injection H.
    - destruct (Composer.sendDisabled isPending s); [discriminate H|].
      apply Hc in H. now injection H. }
  now apply (reachable_jpeg s Hr).
Qed.

(** X16. Sending does not stop a picture that is still being read: when a
    text is sent while the picture chosen is loading, the text goes without
    it; the picture that arrives afterwards is held with no preview shown, and
    the next send hands it over with an empty text. *)
Theorem picture_loaded_after_send
    (f : Composer.File) (payload : string) (s : Composer.State) :
  String.prefix "image/" (Composer.fileType f) = true ->
  Composer.imageData s = None ->
  existsb (fun c => negb (Composer.isWhiteSpace c)) (Composer.input s) = true ->
  let s1 := Composer.handleImageSelect f s in
  let s2 := fst (Composer.handleSend s1) in
  let s3 := Composer.imageLoaded payload s2 in
  Composer.imagePreview s1 = Some (Composer.objectUrl f) /\
  snd (Composer.handleSend s1) = Some (Composer.input s, None) /\
  Composer.imagePreview s3 = None /\
  Composer.imageData s3 = Some (Composer.mkImage payload "image/jpeg") /\
  snd (Composer.handleSend s3)
    = Some ([], Some (Composer.mkImage payload "image/jpeg")).
Proof.
  intros Hf Hi Hin s1 s2 s3.
  assert (E1 : s1 = Composer.mkState (Composer.input s) (Some (Composer.objectUrl f))
                      None true (Composer.fileInputValue s)).
  { unfold s1, Composer.handleImageSelect. now rewrite Hf, Hi. }
  assert (N1 : Composer.nothingToSend s1 = false).
  { apply nothingToSend_false_iff. left. now rewrite E1. }
  assert (E2 : Composer.handleSend s1 =
               (Composer.removeImage (Composer.setInput [] s1),
                Some (Composer.input s1, Composer.imageData s1))).
  { unfold Composer.handleSend. now rewrite N1. }
  unfold s3, s2. rewrite E2, E1. simpl. repeat split.
Qed.

(** X17. A paste looks at one item only, the first whose type starts with
    "image/": what comes before it is skipped, what comes after it is never
    read, even when that item yields no file; without such an item the
    composer is left as it is. *)
Theorem paste_reads_first_image_item
    (before after : list Composer.ClipboardItem) (item : Composer.ClipboardItem)
    (s : Composer.State) :
  forallb (fun i => negb (String.prefix "image/" (Composer.itemType i))) before
    = true ->
  (String.prefix "image/" (Composer.itemType item) = true ->
   Composer.handlePaste (before ++ item :: after) s =
   match Composer.getAsFile item with
   | Some f => Composer.handleImageSelect f s
   | None => s
   end) /\
  Composer.handlePaste before s = s.
Proof.
  intros Hb. induction before as [|i before IH]; simpl.
  - split; trivial. now intros ->.
  - simpl in Hb. apply andb_true_iff in Hb as [Hi Hb].
    apply negb_true_iff in Hi. rewrite Hi. now apply IH.
Qed.

(** ** From a gesture to the text of the message *)

Section Handover.

(** The text of the input as the page receives it: the same string, empty
    exactly when the input is. *)
Variable textOf : list N -> string.
Hypothesis textOf_empty : forall v, textOf v = "" <-> v = [].

(** X18. No message goes out with an empty text: whenever a gesture makes the
    composer call [onSend], the draft built from that call has a text that is
    not empty (the input itself, or the camera sign for a picture alone). *)
Theorem sent_text_is_never_empty
    (isPending : bool) (g : Composer.Gesture) (s s' : Composer.State)
    (v : list N) (image : option Composer.Image) (uuid : string) :
  Composer.react isPending g s = (s', Some (v, image)) ->
  d_text (onSend uuid (textOf v) image) <> "" /\
  (v <> [] -> d_text (onSend uuid (textOf v) image) = textOf v) /\
  (v = [] -> d_text (onSend uuid (textOf v) image) = cameraText).
Proof.
  intros H.
  assert (Hsend : snd (Composer.react isPending g s) <> None)
    by (rewrite H; discriminate).
  apply gesture_sends_iff in Hsend as [Hsome _].
  assert (Hcall : v = Composer.input s /\ image = Composer.imageData s).
  { assert (Hc : forall s'' call, Composer.handleSend s = (s'', Some call) ->
                   call = (Composer.input s, Composer.imageData s)).
    { intros s'' call Hs. now apply ComposerFacts.handleSend_cleared in Hs. }
    destruct g as [key shiftKey|]; simpl in H.
    - destruct (String.eqb key "Enter" && negb shiftKey); [|discriminate H].
      apply Hc in H. injection H as -> ->. now split.
    - destruct (Composer.sendDisabled isPending s); [discriminate H|].
      apply Hc in H. injection H as -> ->. now split. }
  destruct Hcall as [-> ->].
  assert (Hv : Composer.input s <> [] \/
               (Composer.input s = [] /\ Composer.imageData s <> None)).
  { destruct (Composer.input s) as [|c l]; [|left; discriminate].
    right. split; trivial. destruct Hsome as [Hx|Hx]; [discriminate Hx|trivial]. }
  unfold onSend; simpl.
  destruct Hv as [Hne|[He Hi]].
  - assert (Ht : textOf (Composer.input s) <> "")
      by (intros E; now apply textOf_empty in E).
    destruct (textOf (Composer.input s)) as [|c r]; [congruence|].
    split; [discriminate|]. split; [reflexivity|congruence].
  - rewrite He. rewrite (proj2 (textOf_empty []) eq_refl).
    destruct (Composer.imageData s); [|congruence].
    split; [discriminate|]. split; [congruence|reflexivity].
Qed.

End Handover.

(** ** Where the view navigates, and what a destroy signal leaves *)

Lemma pushed_setTimeRemaining (v : option Z) (p : Page) :
  pushed (setTimeRemaining v p) = pushed p \/
  pushed (setTimeRemaining v p) = pushed p ++ [destroyedUrl].
Proof.
  unfold setTimeRemaining, countdownEffect.
  destruct (negb (mounted p)); [now left|].
  destruct (sameValue v (timeRemaining p)); [now left|].
  simpl. destruct v as [t|]; [|now left].
  destruct (t <? 0); [now left|]. destruct (t =? 0); [now right|now left].
Qed.

Lemma pushed_tick (p : Page) :
  pushed (tick p) = pushed p \/ pushed (tick p) = pushed p ++ [destroyedUrl].
Proof.
  unfold tick, intervalCallback. destruct (interval p); [|now left].
  destruct (timeRemaining p) as [t|]; [destruct (t <=? 1)|].
  - apply (pushed_setTimeRemaining (Some 0) (clearInterval p)).
  - apply pushed_setTimeRemaining.
  - apply (pushed_setTimeRemaining (Some 0) (clearInterval p)).
Qed.

Lemma pushed_step (username room : string) (e : Event) (p : Page) :
  pushed (step username room e p) = pushed p \/
  pushed (step username room e p) = pushed p ++ [destroyedUrl].
Proof.
  destruct e; cbn [step]; try (now left).
  - destruct context as [[[l|]]|]; now left.
  - destruct ev; [now left|now right].
  - destruct ttl; [apply pushed_setTimeRemaining|now left].
  - apply pushed_tick.
Qed.

(** X19. The room view navigates to one address only: every call it ever
    makes on the router, by the countdown or on a destroy signal, is for
    "/?destroyed=true". *)
Theorem navigates_only_to_destroyed (username room : string) (p : Page) :
  reachable username room p ->
  Forall (fun url => url = destroyedUrl) (pushed p).
Proof.
  induction 1 as [|p e Hr IH Ha|p0 now d p Hr0 IH0 Hr IH].
  - constructor.
  - destruct (pushed_step username room e p) as [-> | ->]; trivial.
    apply Forall_app. split; trivial. now repeat constructor.
  - destruct (pushed_step username room
                (MutationFailed (Some (snd (onMutate username room now d p0)))) p)
      as [E|E]; cbn [step] in E; rewrite E; trivial.
    apply Forall_app. split; trivial. now repeat constructor.
Qed.

Lemma populated_step (username room : string) (e : Event) (p : Page) :
  cache p <> None -> cache (step username room e p) <> None.
Proof.
  intros Hp. destruct e; cbn [step]; trivial.
  - unfold cache, withClient, QueryClient.resolveFetch; simpl.
    destruct (QueryClient.isFetching tok (client p)); [discriminate|trivial].
  - rewrite cache_onMutate. discriminate.
  - destruct context as [[[l|]]|]; trivial. discriminate.
  - destruct ev as [m|]; cbn [onData]; trivial.
    rewrite cache_withClient_set. destruct (cache p) as [l|]; simpl.
    + destruct (hasId (id m) l); discriminate.
    + discriminate.
  - unfold cache. now rewrite client_ttlEffect.
  - unfold cache. now rewrite client_tick.
Qed.

(** X20. No callback of the view unsets the message list: once the cache
    holds a list it holds one through every later sequence of callbacks, and a
    destroy signal in particular leaves the cached list as it is. *)
Theorem cache_is_never_unset
    (username room : string) (evs : list Event) (p : Page) :
  cache p <> None ->
  cache (run username room evs p) <> None /\
  cache (step username room (Realtime ChatDestroy) p) = cache p.
Proof.
  intros Hp. split; [|reflexivity].
  revert p Hp. unfold run.
  induction evs as [|e evs IH]; intros p Hp; simpl; trivial.
  apply IH. now apply populated_step.
Qed.

(** * The further properties on sample rooms *)

Lemma delivery_order_and_repeats_irrelevant_witness :
  NoDup (ids (cache pageM1)) /\
  (forall x, In x (map id [mb; m1; mb]) <-> In x (map id [m1; mb])) /\
  Permutation
    (ids (cache (run "alice" "r1"
                   (map (fun m => Realtime (ChatMessage m)) [mb; m1; mb]) pageM1)))
    (ids (cache (run "alice" "r1"
                   (map (fun m => Realtime (ChatMessage m)) [m1; mb]) pageM1))).
Proof.
  assert (Hn : NoDup (ids (cache pageM1))).
  { constructor; [intros []|constructor]. }
  assert (Hs : forall x, In x (map id [mb; m1; mb]) <-> In x (map id [m1; mb])).
  { intros x. simpl. tauto. }
  split; [exact Hn|]. split; [exact Hs|].
  apply (delivery_order_and_repeats_irrelevant "alice" "r1" pageM1
           [mb; m1; mb] [m1; mb] Hn Hs).
Defined.

Lemma listed_stays_listed_witness :
  forallb appendsOnly [Realtime (ChatMessage mb); Mutate 2000 draftA; Tick] = true /\
  exists added,
    messagesOf (cache (run "alice" "r1"
                         [Realtime (ChatMessage mb); Mutate 2000 draftA; Tick]
                         pageM1))
    = messagesOf (cache pageM1) ++ added.
Proof.
  split; [reflexivity|].
  apply (listed_stays_listed "alice" "r1"
           [Realtime (ChatMessage mb); Mutate 2000 draftA; Tick] pageM1).
  reflexivity.
Defined.

Lemma first_copy_wins_witness :
  lookupId "m1" (messagesOf (cache pageM1)) = Some m1 /\
  lookupId "m1"
    (messagesOf (cache (run "alice" "r1"
       [Realtime (ChatMessage (mkMessage "m1" "bob" "hello" 1007 "r1" None None))]
       pageM1)))
  = Some m1.
Proof.
  split; [reflexivity|].
  apply (first_copy_wins "alice" "r1"
           [Realtime (ChatMessage (mkMessage "m1" "bob" "hello" 1007 "r1" None None))]
           pageM1 "m1" m1); reflexivity.
Defined.

Lemma failed_send_round_trip_witness :
  cache pageM1 = Some [m1] /\
  onError (Some (snd (onMutate "alice" "r1" 2000 draft2 pageM1)))
          (fst (onMutate "alice" "r1" 2000 draft2 pageM1))
  = withClient QueryClient.cancelQueries pageM1.
Proof.
  split; [reflexivity|].
  apply (proj1 (failed_send_round_trip "alice" "r1" 2000 draft2 pageM1) [m1]).
  reflexivity.
Defined.

Lemma countdown_from_any_state_witness :
  reachable "alice" "r1" (ttlEffect (Some 3) initialPage) /\
  interval (ttlEffect (Some 3) initialPage) = true /\
  3 <= maxSafeInteger /\
  timeRemaining (ticks 5 (ttlEffect (Some 3) initialPage)) = Some 0 /\
  pushed (ticks 5 (ttlEffect (Some 3) initialPage)) = [destroyedUrl].
Proof.
  assert (Hr : reachable "alice" "r1" (ttlEffect (Some 3) initialPage)).
  { apply (reach_step "alice" "r1" initialPage (TtlData (Some 3)));
      [apply reach_init|exact I]. }
  assert (Hs : 3 <= maxSafeInteger) by (unfold maxSafeInteger; lia).
  split; [exact Hr|]. split; [reflexivity|]. split; [exact Hs|].
  destruct (countdown_from_any_state "alice" "r1" _ Hr eq_refl)
    as (t & Ht & _ & _ & Hk).
  simpl in Ht. injection Ht as <-.
  destruct (Hk Hs 5%nat) as (Hv & _ & Hp). split; [exact Hv|exact Hp].
Defined.

Lemma closed_view_is_still_witness :
  reachable "alice" "r1" (unmount (ttlEffect (Some 3) initialPage)) /\
  mounted (unmount (ttlEffect (Some 3) initialPage)) = false /\
  timeRemaining (run "alice" "r1" [Tick; Realtime ChatDestroy; TtlData (Some 9)]
                     (unmount (ttlEffect (Some 3) initialPage))) = Some 3 /\
  pushed (run "alice" "r1" [Tick; Realtime ChatDestroy; TtlData (Some 9)]
              (unmount (ttlEffect (Some 3) initialPage))) = [destroyedUrl].
Proof.
  assert (Hr : reachable "alice" "r1" (unmount (ttlEffect (Some 3) initialPage))).
  { apply (reach_step "alice" "r1" _ Unmount); [|exact I].
    apply (reach_step "alice" "r1" initialPage (TtlData (Some 3)));
      [apply reach_init|exact I]. }
  split; [exact Hr|]. split; [reflexivity|].
  destruct (closed_view_is_still "alice" "r1" _
              [Tick; Realtime ChatDestroy; TtlData (Some 9)] Hr eq_refl)
    as (_ & _ & Ht & Hp).
  split; [exact Ht|exact Hp].
Defined.

Lemma formatTimeRemaining_nonneg_witness :
  0 <= 125 /\ 125 <= maxSafeInteger /\ formatTimeRemaining 125 = "2:05".
Proof.
  assert (H : 0 <= 125) by lia.
  assert (Hs : 125 <= maxSafeInteger) by (unfold maxSafeInteger; lia).
  split; [exact H|]. split; [exact Hs|].
  exact (formatTimeRemaining_nonneg 125 H Hs).
Defined.

Lemma formatTimeRemaining_negative_witness :
  -1 < 0 /\ - maxSafeInteger <= -1 /\ Z.rem (-1) 60 <> 0 /\
  formatTimeRemaining (-1) = "-1:-1".
Proof.
  assert (H : -1 < 0) by lia.
  assert (Hs : - maxSafeInteger <= -1) by (unfold maxSafeInteger; lia).
  assert (Hr : Z.rem (-1) 60 <> 0) by discriminate.
  split; [exact H|]. split; [exact Hs|]. split; [exact Hr|].
  exact (proj1 (proj2 (formatTimeRemaining_negative (-1) H Hs) Hr)).
Defined.

Lemma formatTimeRemaining_inj_witness :
  Z.abs 65 <= maxSafeInteger /\ Z.abs (60 + 5) <= maxSafeInteger /\
  formatTimeRemaining 65 = formatTimeRemaining (60 + 5) /\ 65 = 60 + 5.
Proof.
  assert (Hs : Z.abs 65 <= maxSafeInteger) by (unfold maxSafeInteger; simpl; lia).
  split; [exact Hs|]. split; [exact Hs|]. split; [reflexivity|].
  apply (formatTimeRemaining_inj 65 (60 + 5) Hs Hs). reflexivity.
Defined.

Lemma senderLabel_is_name_up_to_second_hyphen_witness :
  sender mb = "alice" /\ sender m1 <> "alice" /\
  senderLabel "alice" mb = "YOU" /\
  senderLabel "alice" m1 = "bob".
Proof.
  assert (Hne : sender m1 <> "alice") by discriminate.
  split; [reflexivity|]. split; [exact Hne|]. split.
  - apply (proj1 (senderLabel_is_name_up_to_second_hyphen "alice" mb)).
    reflexivity.
  - destruct (proj2 (senderLabel_is_name_up_to_second_hyphen "alice" m1) Hne)
      as (_ & Hwhole & _).
    apply Hwhole. vm_compute. repeat constructor.
Defined.

Lemma getInitials_never_empty_witness :
  (forall c, (fun s : string => s) (String c "") <> "") /\
  getInitials (fun s => s) "anonymous-wolf-x1y2z" <> "".
Proof.
  assert (H : forall c, (fun s : string => s) (String c "") <> "")
    by (intros c; discriminate).
  split; [exact H|].
  apply (getInitials_never_empty (fun s => s) "anonymous-wolf-x1y2z" H).
Defined.

Lemma sent_message_fields_witness :
  "hi" <> "" /\
  text (optimisticMessage "alice" "r1" 2000 (onSend "x" "hi" None)) = "hi".
Proof.
  assert (H : "hi" <> "") by discriminate.
  split; [exact H|].
  destruct (sent_message_fields "alice" "r1" "x" "hi" None 2000 initialPage)
    as (_ & _ & _ & _ & Ht & _).
  exact (Ht H).
Defined.

Lemma bubble_is_blank_iff_witness :
  showsText (optimisticMessage "alice" "r1" 2000 (onSend "x" cameraText None))
    = false /\
  showsImage (optimisticMessage "alice" "r1" 2000 (onSend "x" cameraText None))
    = false.
Proof.
  apply (proj2 (bubble_is_blank_iff "alice" "r1" "x" cameraText None 2000)).
  split; [now right|now left].
Defined.

Lemma gesture_sends_iff_witness :
  snd (Composer.react true (Composer.KeyDown "Enter" false) wordComposer) <> None.
Proof.
  apply (proj2 (gesture_sends_iff true (Composer.KeyDown "Enter" false)
                  wordComposer)).
  split; left; reflexivity.
Defined.

Lemma composer_images_are_jpeg_witness :
  Composer.reachable
    (fst (Composer.act false (Composer.ImageLoaded "AAAA") Composer.initial)) /\
  forall img,
    Composer.imageData
      (fst (Composer.act false (Composer.ImageLoaded "AAAA") Composer.initial))
    = Some img ->
    Composer.type img = "image/jpeg".
Proof.
  assert (Hr : Composer.reachable
                 (fst (Composer.act false (Composer.ImageLoaded "AAAA")
                         Composer.initial))).
  { apply Composer.reach_act. apply Composer.reach_initial. }
  split; [exact Hr|].
  apply (proj1 (composer_images_are_jpeg _ false Composer.ClickSend Hr)).
Defined.

Lemma picture_loaded_after_send_witness :
  String.prefix "image/" (Composer.fileType pngFile) = true /\
  Composer.imageData wordComposer = None /\
  snd (Composer.handleSend
         (Composer.imageLoaded "AAAA"
            (fst (Composer.handleSend
                    (Composer.handleImageSelect pngFile wordComposer)))))
  = Some ([], Some (Composer.mkImage "AAAA" "image/jpeg")).
Proof.
  split; [reflexivity|]. split; [reflexivity|].
  destruct (picture_loaded_after_send pngFile "AAAA" wordComposer
              eq_refl eq_refl eq_refl) as (_ & _ & _ & _ & H).
  exact H.
Defined.

Lemma paste_reads_first_image_item_witness :
  forallb (fun i => negb (String.prefix "image/" (Composer.itemType i)))
          [textItem] = true /\
  String.prefix "image/" (Composer.itemType emptyImageItem) = true /\
  Composer.handlePaste ([textItem] ++ emptyImageItem :: [pngItem]) wordComposer
  = wordComposer.
Proof.
  split; [reflexivity|]. split; [reflexivity|].
  apply (proj1 (paste_reads_first_image_item [textItem] [pngItem] emptyImageItem
                  wordComposer eq_refl)).
  reflexivity.
Defined.

Lemma latin1_empty (v : list N) : latin1 v = "" <-> v = [].
Proof. destruct v; simpl; split; trivial; discriminate. Qed.

Lemma sent_text_is_never_empty_witness :
  Composer.react false Composer.ClickSend wordComposer
  = (Composer.removeImage (Composer.setInput [] wordComposer),
     Some (Composer.input wordComposer, None)) /\
  d_text (onSend "x" (latin1 (Composer.input wordComposer)) None) <> "".
Proof.
  split; [reflexivity|].
  apply (proj1 (sent_text_is_never_empty latin1 latin1_empty false
                  Composer.ClickSend wordComposer
                  (Composer.removeImage (Composer.setInput [] wordComposer))
                  (Composer.input wordComposer) None "x" eq_refl)).
Defined.

Lemma navigates_only_to_destroyed_witness :
  reachable "alice" "r1" (ticks 3 (ttlEffect (Some 3) initialPage)) /\
  Forall (fun url => url = destroyedUrl)
         (pushed (ticks 3 (ttlEffect (Some 3) initialPage))).
Proof.
  assert (Hr : reachable "alice" "r1" (ticks 3 (ttlEffect (Some 3) initialPage))).
  { apply (reach_step "alice" "r1" _ Tick); [|exact I].
    apply (reach_step "alice" "r1" _ Tick); [|exact I].
    apply (reach_step "alice" "r1" _ Tick); [|exact I].
    apply (reach_step "alice" "r1" initialPage (TtlData (Some 3)));
      [apply reach_init|exact I]. }
  split; [exact Hr|].
  apply (navigates_only_to_destroyed "alice" "r1" _ Hr).
Defined.

Lemma cache_is_never_unset_witness :
  cache pageM1 <> None /\
  cache (run "alice" "r1"
           [Realtime ChatDestroy; FetchStarted; FetchRejected 1; Unmount] pageM1)
  <> None.
Proof.
  assert (H : cache pageM1 <> None) by discriminate.
  split; [exact H|].
  apply (proj1 (cache_is_never_unset "alice" "r1"
                  [Realtime ChatDestroy; FetchStarted; FetchRejected 1; Unmount]
                  pageM1 H)).
Defined.
